(** * BloggerApp: a shallow embedding of [src/BloggerApp.jsx]

    The component keeps nine pieces of React state and reacts to events:
    the mount, authentication changes, Firestore snapshots, and the form's
    buttons.  Each handler of the source is a function over the component's
    state below; everything the source asks of the outside world
    ([alert], [console.error], Firestore and authentication calls) is
    appended to a trace, so that "which calls were issued" is a statement
    about a list.

    Conventions.
    - A JavaScript string is a [string]; [null] is [None].
    - A number is an IEEE 754 double, given by its exact value: every
      finite double is a whole multiple of 2^-1074, and [Num n] is the
      double [n * 2^-1074].  Arithmetic rounds to the nearest double, ties
      to even.  The infinities are left out, and with them division by
      zero; the numbers met here stay far from the largest double.
    - A document has the fields [handleSubmit] writes.  Its timestamp is
      a [Timestamp] once the server has set it; until then a snapshot
      reads it as [null], Firestore's default for [doc.data()].
    - An event carries the outcome of the promise its handler awaits:
      [Fulfilled], [Rejected], or [Unsettled] when it never settles.  The
      handler runs to its end within the event; what follows an [await]
      only writes state and logs, so events in between would not change
      what it does.
    - [collection] and [doc] are Firestore's: they cut their arguments
      into path segments and throw on a path of the wrong length.  What
      they throw is given by its message. *)

From Stdlib Require Import String Ascii List ZArith Bool Lia Permutation Sorted.
From Stdlib Require Import DecimalString.
Import ListNotations.
Local Open Scope string_scope.
Local Open Scope list_scope.

(** ** JavaScript values the component handles *)

(** [!s] is true for the empty string only. *)
Definition truthy (s : string) : bool := negb (String.eqb s "").

(** A state variable holding [null] or a string. *)
Definition truthy_opt (o : option string) : bool :=
  match o with
  | Some s => truthy s
  | None => false
  end.

Definition is_some {A : Type} (o : option A) : bool :=
  match o with
  | Some _ => true
  | None => false
  end.

(** The string a state variable holds, read where a guard has excluded
    [null]. *)
Definition str (o : option string) : string :=
  match o with
  | Some s => s
  | None => ""
  end.

(** ** Numbers *)

(** NaN, or the double [n * 2^-1074]. *)
Inductive number : Type :=
| NaN
| Num (n : Z).

(** The number 1, in units of 2^-1074. *)
Definition one : Z := 2 ^ 1074.

(** Arithmetic over the unit is done without its value. *)
Ltac hide_one :=
  repeat match goal with
         | H : context [one] |- _ => revert H
         end;
  generalize one; intros.

(** [a / b] rounded to the nearest integer, ties to the even one. *)
Definition half_even (a b : Z) : Z :=
  let q := (a / b)%Z in
  let r2 := (2 * (a mod b))%Z in
  if (r2 <? b)%Z then q
  else if (b <? r2)%Z then (q + 1)%Z
  else if Z.even q then q else (q + 1)%Z.

(** The double nearest to [num / den] units, for [0 <= num] and
    [0 < den]: doubles keep 53 binary digits, so above 2^53 units they
    are 2^k units apart, [k] growing with the size. *)
Definition round_pos (num den : Z) : Z :=
  let k := Z.max 0 (Z.log2 (num / den) - 52) in
  (half_even num (den * 2 ^ k) * 2 ^ k)%Z.

(** The double nearest to [num / den] units. *)
Definition fl (num den : Z) : number :=
  if (den <=? 0)%Z then NaN
  else if (num <? 0)%Z then Num (- round_pos (- num) den)
  else Num (round_pos num den).

(** The double of an integer; exact below 2^53. *)
Definition of_Z (z : Z) : number := fl (z * one) 1.

(** [x + y], [x - y], [x * y] and [x / y] on numbers. *)
Definition js_add (x y : number) : number :=
  match x, y with
  | Num a, Num b => fl (a + b) 1
  | _, _ => NaN
  end.

Definition js_sub (x y : number) : number :=
  match x, y with
  | Num a, Num b => fl (a - b) 1
  | _, _ => NaN
  end.

Definition js_mul (x y : number) : number :=
  match x, y with
  | Num a, Num b => fl (a * b) one
  | _, _ => NaN
  end.

Definition js_div (x y : number) : number :=
  match x, y with
  | Num a, Num b =>
      if (b <? 0)%Z then fl (- (a * one)) (- b) else fl (a * one) b
  | _, _ => NaN
  end.

Definition nano : Z := 1000000000.

(** The number a decimal numeral converts to; the numeral is given by
    its value [k * 10^-9]. *)
Definition StringToNumber (k : Z) : number := fl (k * one) nano.

(** [new Date(value)]: the time value in whole milliseconds, cut toward
    zero; beyond 8.64e15 ms either way, and for NaN, the date is invalid
    ([None]). *)
Definition newDate (value : number) : option Z :=
  match value with
  | NaN => None
  | Num n =>
      if (Z.abs n <=? 8640000000000000 * one)%Z then Some (Z.quot n one)
      else None
  end.

(** Firestore's [Timestamp]: seconds since the Unix epoch and a nanosecond
    part, both whole numbers. *)
Module Timestamp.
Record t : Type := { seconds : Z; nanoseconds : Z }.

Definition MIN_SECONDS : Z := -62135596800.

(** What the constructor accepts: the years 1 to 9999, and less than a
    second of nanoseconds. *)
Definition valid (ts : t) : Prop :=
  (MIN_SECONDS <= seconds ts < 253402300800)%Z /\
  (0 <= nanoseconds ts < nano)%Z.

(** [valueOf()] is a string: the seconds counted from 0001-01-01 in
    twelve digits, a point, and the nanoseconds in nine digits.  It is
    given here by the decimal number it spells, counted in 10^-9. *)
Definition valueOf (ts : t) : Z :=
  ((seconds ts - MIN_SECONDS) * nano + nanoseconds ts)%Z.

(** [toMillis()]: [this.seconds * 1e3 + this.nanoseconds / 1e6]. *)
Definition toMillis (ts : t) : number :=
  js_add (js_mul (of_Z (seconds ts)) (of_Z 1000))
         (js_div (of_Z (nanoseconds ts)) (of_Z 1000000)).

(** [toDate()]: [new Date(this.toMillis())]. *)
Definition toDate (ts : t) : option Z := newDate (toMillis ts).
End Timestamp.

(** What [blog.timestamp] can be: [undefined] (no such field), [null] (a
    server timestamp that is still pending in a local snapshot), a
    [Timestamp] object, or a number with the whole value [ms]. *)
Inductive tsval : Type :=
| TsUndefined
| TsNull
| TsObject (ts : Timestamp.t)
| TsNumber (ms : Z).

(** ToNumber, as the subtraction applies it: an object gives the number
    its [valueOf()] string spells. *)
Definition ToNumber (v : tsval) : number :=
  match v with
  | TsUndefined => NaN
  | TsNull => Num 0
  | TsObject ts => StringToNumber (Timestamp.valueOf ts)
  | TsNumber ms => of_Z ms
  end.

(** [!timestamp] negated: [undefined], [null] and the number 0 are falsy,
    objects are truthy. *)
Definition ts_truthy (v : tsval) : bool :=
  match v with
  | TsUndefined | TsNull => false
  | TsObject _ => true
  | TsNumber ms => negb (Z.eqb ms 0)
  end.

(** ** Documents and posts *)

(** The fields of a stored document, [doc.data()]: the ones the component
    reads.  No document has a field [id], so the spread below keeps
    [doc.id]. *)
Module Data.
Record t : Type :=
  { title : string; description : string; author : string;
    timestamp : tsval }.
End Data.

(** A document of a snapshot: [doc.id] and [doc.data()]. *)
Module Doc.
Record t : Type := { id : string; data : Data.t }.
End Doc.

(** An element of [blogs]: [{ id: doc.id, ...doc.data() }]. *)
Module Blog.
Record t : Type :=
  { id : string; title : string; description : string; author : string;
    timestamp : tsval }.

Definition of_doc (doc : Doc.t) : t :=
  {| id := Doc.id doc;
     title := Data.title (Doc.data doc);
     description := Data.description (Doc.data doc);
     author := Data.author (Doc.data doc);
     timestamp := Data.timestamp (Doc.data doc) |}.
End Blog.

(** ** Array.prototype.sort

    The comparator's result [v] orders [x] after [y] when [v > 0]; NaN
    counts as 0.  The sort is stable, and for a consistent comparator the
    result is the one stable ordering, whatever the engine's algorithm; it
    is computed here by insertion from the right. *)
Section Sort.
Context {A : Type}.
Variable comparefn : A -> A -> number.

Definition sorts_after (x y : A) : bool :=
  match comparefn x y with
  | NaN => false
  | Num v => (0 <? v)%Z
  end.

Fixpoint sort_insert (x : A) (l : list A) : list A :=
  match l with
  | [] => [x]
  | y :: l' => if sorts_after x y then y :: sort_insert x l' else x :: l
  end.

Definition js_sort (l : list A) : list A :=
  fold_right sort_insert [] l.
End Sort.

(** ** The outside world *)

(** A value of a field written to the store; [serverTimestamp()] is a
    sentinel the server replaces. *)
Inductive field_value : Type :=
| FString (s : string)
| FServerTimestamp.

(** An object literal sent to the store, field by field. *)
Definition payload : Type := list (string * field_value).


(** A reference: the path segments it addresses. *)
Definition path : Type := list string.

Definition path_string (p : path) : string := String.concat "/" p.

(** ** Firestore's paths *)

(** [s.split('/')]. *)
Fixpoint split_slash (s : string) : list string :=
  match s with
  | EmptyString => [EmptyString]
  | String c s' =>
      if Ascii.eqb c "/" then EmptyString :: split_slash s'
      else
        match split_slash s' with
        | w :: ws => String c w :: ws
        | [] => [String c EmptyString]
        end
  end.

(** [s.indexOf('//') >= 0]. *)
Fixpoint has_double_slash (s : string) : bool :=
  match s with
  | String c (String d _ as s') =>
      (Ascii.eqb c "/" && Ascii.eqb d "/") || has_double_slash s'
  | _ => false
  end.

Definition nat_string (n : nat) : string :=
  NilZero.string_of_uint (Nat.to_uint n).

(** [ResourcePath.fromString]: every argument is cut at its slashes and
    the empty pieces are dropped; an argument with two slashes in a row
    throws.  [inl] is a throw, with the error's message. *)
Fixpoint fromString (pathComponents : list string) : string + path :=
  match pathComponents with
  | [] => inr []
  | p :: rest =>
      if has_double_slash p then
        inl ("Invalid segment (" ++ p ++
             "). Paths must not contain // in them.")%string
      else
        match fromString rest with
        | inl error => inl error
        | inr segments => inr (filter truthy (split_slash p) ++ segments)
        end
  end.

(** [collection(db, ...pathComponents)]: a collection has an odd number
    of segments. *)
Definition collection (pathComponents : list string) : string + path :=
  match fromString pathComponents with
  | inl error => inl error
  | inr segments =>
      if Nat.even (length segments) then
        inl ("Invalid collection reference. Collection references must " ++
             "have an odd number of segments, but " ++
             path_string segments ++ " has " ++
             nat_string (length segments) ++ ".")%string
      else inr segments
  end.

(** [doc(db, ...pathComponents)]: a document has an even number of
    segments. *)
Definition doc (pathComponents : list string) : string + path :=
  match fromString pathComponents with
  | inl error => inl error
  | inr segments =>
      if Nat.even (length segments) then inr segments
      else
        inl ("Invalid document reference. Document references must " ++
             "have an even number of segments, but " ++
             path_string segments ++ " has " ++
             nat_string (length segments) ++ ".")%string
  end.

Definition throws {A : Type} (x : string + A) : bool :=
  match x with
  | inl _ => true
  | inr _ => false
  end.

Inductive effect : Type :=
| PreventDefault
| Alert (msg : string)
| ConsoleError (msg : string) (error : option string)
| ConsoleLog (msg : string) (arg : string)
| InitializeApp
| OnAuthStateChanged
| SignInWithCustomToken (token : string)
| SignInAnonymously
| OnSnapshot (ref : path)
| Unsubscribe (ref : path)
| AddDoc (ref : path) (data : payload)
| UpdateDoc (ref : path) (data : payload)
| DeleteDoc (ref : path).

(** The calls that go to the backend. *)
Definition is_network_call (e : effect) : bool :=
  match e with
  | SignInWithCustomToken _ | SignInAnonymously
  | OnSnapshot _ | AddDoc _ _ | UpdateDoc _ _ | DeleteDoc _ => true
  | _ => false
  end.

Definition network_calls (tr : list effect) : list effect :=
  filter is_network_call tr.

(** How an awaited promise ends. *)
Inductive settled : Type :=
| Fulfilled
| Rejected (error : string)
| Unsettled.

(** The handles [getFirestore] and [getAuth] return. *)
Inductive firestore : Type := Firestore.
Inductive authentication : Type := Authentication.

(** ** Component state: the nine [useState] cells *)
Record state : Type :=
  { blogs : list Blog.t;
    title : string;
    description : string;
    author : string;
    editingId : option string;
    loading : bool;
    userId : option string;
    db : option firestore;
    auth : option authentication }.

(** The component with its surroundings: the trace of effects so far, and
    which listeners are registered. *)
Record world : Type :=
  { st : state;
    trace : list effect;
    mounted : bool;
    authListener : bool;
    snapshotListener : option path }.

(** The initial values given to [useState]. *)
Definition initial_state : state :=
  {| blogs := []; title := ""; description := ""; author := "";
     editingId := None; loading := true; userId := None;
     db := None; auth := None |}.

Definition initial_world : world :=
  {| st := initial_state; trace := []; mounted := false;
     authListener := false; snapshotListener := None |}.

(** ** Handlers as state transformers *)
Definition Act (A : Type) : Type := world -> A * world.

Definition ret {A : Type} (a : A) : Act A := fun w => (a, w).

Definition bind {A B : Type} (m : Act A) (k : A -> Act B) : Act B :=
  fun w => let (a, w') := m w in k a w'.

Declare Scope act_scope.
Delimit Scope act_scope with act.
Notation "x <- m ;; k" := (bind m (fun x => k))
  (at level 61, m at next level, right associativity) : act_scope.
Notation "m ;; k" := (bind m (fun _ => k))
  (at level 61, right associativity) : act_scope.
Local Open Scope act_scope.

Definition exec {A : Type} (m : Act A) (w : world) : world := snd (m w).

(** The state as the running handler sees it. *)
Definition get : Act state := fun w => (st w, w).

Definition modify (f : state -> state) : Act unit :=
  fun w =>
    (tt, {| st := f (st w); trace := trace w; mounted := mounted w;
            authListener := authListener w;
            snapshotListener := snapshotListener w |}).

Definition emit (e : effect) : Act unit :=
  fun w =>
    (tt, {| st := st w; trace := trace w ++ [e]; mounted := mounted w;
            authListener := authListener w;
            snapshotListener := snapshotListener w |}).

Definition setBlogs (v : list Blog.t) : Act unit :=
  modify (fun s =>
    {| blogs := v; title := title s; description := description s;
       author := author s; editingId := editingId s; loading := loading s;
       userId := userId s; db := db s; auth := auth s |}).

Definition setTitle (v : string) : Act unit :=
  modify (fun s =>
    {| blogs := blogs s; title := v; description := description s;
       author := author s; editingId := editingId s; loading := loading s;
       userId := userId s; db := db s; auth := auth s |}).

Definition setDescription (v : string) : Act unit :=
  modify (fun s =>
    {| blogs := blogs s; title := title s; description := v;
       author := author s; editingId := editingId s; loading := loading s;
       userId := userId s; db := db s; auth := auth s |}).

Definition setAuthor (v : string) : Act unit :=
  modify (fun s =>
    {| blogs := blogs s; title := title s; description := description s;
       author := v; editingId := editingId s; loading := loading s;
       userId := userId s; db := db s; auth := auth s |}).

Definition setEditingId (v : option string) : Act unit :=
  modify (fun s =>
    {| blogs := blogs s; title := title s; description := description s;
       author := author s; editingId := v; loading := loading s;
       userId := userId s; db := db s; auth := auth s |}).

Definition setLoading (v : bool) : Act unit :=
  modify (fun s =>
    {| blogs := blogs s; title := title s; description := description s;
       author := author s; editingId := editingId s; loading := v;
       userId := userId s; db := db s; auth := auth s |}).

Definition setUserId (v : option string) : Act unit :=
  modify (fun s =>
    {| blogs := blogs s; title := title s; description := description s;
       author := author s; editingId := editingId s; loading := loading s;
       userId := v; db := db s; auth := auth s |}).

Definition setDb (v : option firestore) : Act unit :=
  modify (fun s =>
    {| blogs := blogs s; title := title s; description := description s;
       author := author s; editingId := editingId s; loading := loading s;
       userId := userId s; db := v; auth := auth s |}).

Definition setAuth (v : option authentication) : Act unit :=
  modify (fun s =>
    {| blogs := blogs s; title := title s; description := description s;
       author := author s; editingId := editingId s; loading := loading s;
       userId := userId s; db := db s; auth := v |}).

Definition set_mounted (v : bool) : Act unit :=
  fun w =>
    (tt, {| st := st w; trace := trace w; mounted := v;
            authListener := authListener w;
            snapshotListener := snapshotListener w |}).

Definition set_authListener (v : bool) : Act unit :=
  fun w =>
    (tt, {| st := st w; trace := trace w; mounted := mounted w;
            authListener := v; snapshotListener := snapshotListener w |}).

Definition set_snapshotListener (v : option path) : Act unit :=
  fun w =>
    (tt, {| st := st w; trace := trace w; mounted := mounted w;
            authListener := authListener w; snapshotListener := v |}).

(** [try { await call; onOk } catch (error) { onError error }]: the call
    is issued, and the rest runs when and as the promise settles. *)

(** [await call]: the call is issued, and the rest runs when and as the
    promise settles. *)
Definition try_await (call : effect) (r : settled)
    (onOk : Act unit) (onError : string -> Act unit) : Act unit :=
  emit call ;;
  match r with
  | Fulfilled => onOk
  | Rejected error => onError error
  | Unsettled => ret tt
  end.

(** [try { await call(ref); onOk } catch (error) { onError error }],
    where building the reference [ref] may throw: then nothing is called
    and the catch block runs with what was thrown. *)
Definition try_call (ref : string + path) (call : path -> effect)
    (r : settled) (onOk : Act unit) (onError : string -> Act unit)
    : Act unit :=
  match ref with
  | inl error => onError error
  | inr ref => try_await (call ref) r onOk onError
  end.

(** ** The component *)

(** The globals the hosting page may define. *)
Record globals : Type :=
  { __app_id : option string;
    __firebase_config : option (list (string * string));
    __initial_auth_token : option string }.

(** What the environment delivers to the component.  [Submit] and
    [Delete] are a click whose handler gets to its end or to its write,
    which then settles as [write]; [SubmitRefused] and [DeleteRefused]
    are a click during which the store refuses the reference, so that no
    write is made. *)
Inductive event : Type :=
| Mount (thrown : option string)
| AuthStateChanged (user : option string) (signIn : settled)
| Snapshot (docs : list Doc.t)
| SnapshotError (error : string)
| ChangeTitle (value : string)
| ChangeAuthor (value : string)
| ChangeDescription (value : string)
| Submit (write : settled)
| Edit (index : nat)
| Delete (index : nat) (write : settled)
| Cancel
| SubmitRefused
| DeleteRefused (index : nat).

(** The guard at the head of [handleSubmit]. *)
Definition rejected_by_guard (s : state) : bool :=
  negb (truthy (title s)) || negb (truthy (description s))
  || negb (truthy (author s)) || negb (is_some (db s))
  || negb (truthy_opt (userId s)).

Section App.
Variable env : globals.

(** Locale formatting of a valid [Date], given as milliseconds since the
    epoch: [Date.prototype.toLocaleString]. *)
Variable toLocaleString : Z -> string.

Definition appId : string :=
  match __app_id env with
  | Some v => v
  | None => "default-app-id"
  end.

(** [JSON.parse] of the configuration, [{}] when none is given. *)
Definition firebaseConfig : list (string * string) :=
  match __firebase_config env with
  | Some v => v
  | None => []
  end.

Definition initialAuthToken : option string := __initial_auth_token env.

(** *** Authentication *)

(** The callback given to [onAuthStateChanged]. *)
Definition authCallback (user : option string) (r : settled) : Act unit :=
  match user with
  | Some uid =>
      setUserId (Some uid) ;;
      setLoading false ;;
      emit (ConsoleLog "Signed in as:" uid)
  | None =>
      try_await
        (if truthy_opt initialAuthToken
         then SignInWithCustomToken (str initialAuthToken)
         else SignInAnonymously)
        r
        (ret tt)
        (fun error =>
           emit (ConsoleError "Authentication error:" (Some error)) ;;
           setLoading false)
  end.

(** The first effect: initialise Firebase and listen to the
    authentication state.  [thrown] is the exception of
    [initializeApp], [getFirestore] or [getAuth], if any. *)
Definition initEffect (thrown : option string) : Act unit :=
  if (length firebaseConfig =? 0)%nat then
    emit (ConsoleError "Firebase config is not provided." None)
  else
    match thrown with
    | Some error =>
        emit InitializeApp ;;
        emit (ConsoleError "Firebase initialization error:" (Some error)) ;;
        setLoading false
    | None =>
        emit InitializeApp ;;
        setDb (Some Firestore) ;;
        setAuth (Some Authentication) ;;
        emit OnAuthStateChanged ;;
        set_authListener true
    end.


(** *** The post list *)

Definition blogsCollectionRef (uid : string) : string + path :=
  collection ["artifacts"; appId; "users"; uid; "blog_posts"].

(** The comparator of the sort: [(a, b) => b.timestamp - a.timestamp]. *)
Definition byTimestamp (a b : Blog.t) : number :=
  js_sub (ToNumber (Blog.timestamp b)) (ToNumber (Blog.timestamp a)).

(** The snapshot callback. *)
Definition onSnapshotNext (docs : list Doc.t) : Act unit :=
  let blogsData := map Blog.of_doc docs in
  let blogsData := js_sort byTimestamp blogsData in
  setBlogs blogsData ;;
  setLoading false.

(** The error callback of the subscription. *)
Definition onSnapshotError (error : string) : Act unit :=
  emit (ConsoleError "Failed to fetch blogs:" (Some error)).

(** The second effect; [s] is the state of the render it belongs to.
    When [collection] throws, the catch block logs and clears [loading],
    and there is no subscription.  [onSnapshot] takes the reference and
    the two callbacks as they are and does not throw. *)
Definition listenEffect (s : state) : Act unit :=
  if negb (is_some (db s)) || negb (truthy_opt (userId s)) then ret tt
  else
    match blogsCollectionRef (str (userId s)) with
    | inr ref =>
        emit (OnSnapshot ref) ;;
        set_snapshotListener (Some ref)
    | inl error =>
        emit (ConsoleError "Firestore snapshot error:" (Some error)) ;;
        setLoading false
    end.


(** Its cleanup, [() => unsubscribe()], present when it subscribed. *)
Definition listenCleanup : Act unit :=
  fun w =>
    match snapshotListener w with
    | Some ref => (emit (Unsubscribe ref) ;; set_snapshotListener None) w
    | None => ret tt w
    end.

Definition option_eqb {A : Type} (eqb : A -> A -> bool)
    (x y : option A) : bool :=
  match x, y with
  | Some a, Some b => eqb a b
  | None, None => true
  | _, _ => false
  end.

(** The dependencies [[db, userId, appId]] compared between two
    renders; [appId] never changes. *)
Definition deps_changed (old new : state) : bool :=
  negb (option_eqb (fun _ _ => true) (db old) (db new)) ||
  negb (option_eqb String.eqb (userId old) (userId new)).

(** After a handler ran, React renders again and re-runs the second
    effect when its dependencies changed. *)
Definition rerender (old : state) : Act unit :=
  s <- get ;;
  if deps_changed old s then listenCleanup ;; listenEffect s else ret tt.

(** *** The form *)

Definition resetForm : Act unit :=
  setTitle "" ;;
  setDescription "" ;;
  setAuthor "" ;;
  setEditingId None.

Definition handleEdit (blog : Blog.t) : Act unit :=
  setTitle (Blog.title blog) ;;
  setDescription (Blog.description blog) ;;
  setAuthor (Blog.author blog) ;;
  setEditingId (Some (Blog.id blog)).

(** The object [handleSubmit] sends, for a create and for an update
    alike. *)
Definition blogData (s : state) : payload :=
  [("title", FString (title s));
   ("description", FString (description s));
   ("author", FString (author s));
   ("timestamp", FServerTimestamp)].


Definition handleSubmit (r : settled) : Act unit :=
  emit PreventDefault ;;
  s <- get ;;
  if negb (truthy (title s)) || negb (truthy (description s))
     || negb (truthy (author s)) || negb (is_some (db s))
     || negb (truthy_opt (userId s))
  then emit (Alert "Please fill out all fields.")
  else
    let blogData := blogData s in
    let catch := fun error =>
      emit (ConsoleError "Error adding/updating document:" (Some error)) in
    if truthy_opt (editingId s) then
      try_call
        (doc ["artifacts"; appId; "users"; str (userId s); "blog_posts";
              str (editingId s)])
        (fun ref => UpdateDoc ref blogData)
        r resetForm catch
    else
      try_call
        (collection
           ["artifacts"; appId; "users"; str (userId s); "blog_posts"])
        (fun ref => AddDoc ref blogData)
        r resetForm catch.

Definition handleDelete (id : string) (r : settled) : Act unit :=
  s <- get ;;
  if negb (is_some (db s)) || negb (truthy_opt (userId s)) then ret tt
  else
    try_call
      (doc ["artifacts"; appId; "users"; str (userId s); "blog_posts"; id])
      DeleteDoc
      r (ret tt)
      (fun error =>
         emit (ConsoleError "Error deleting document:" (Some error))).

(** [date.toLocaleString()]. *)
Definition Date_toLocaleString (date : option Z) : string :=
  match date with
  | Some ms => toLocaleString ms
  | None => "Invalid Date"
  end.

Definition formatDate (timestamp : tsval) : string :=
  if negb (ts_truthy timestamp) then "N/A"
  else
    match timestamp with
    | TsObject ts => Date_toLocaleString (Timestamp.toDate ts)
    | TsNumber ms => Date_toLocaleString (newDate (of_Z ms))
    | TsUndefined | TsNull => "N/A"
    end.

(** *** One event *)

(** The reference [handleSubmit] builds in its try block, and whether
    building it throws once the guard has been passed. *)
Definition submitRef (s : state) : string + path :=
  if truthy_opt (editingId s) then
    doc ["artifacts"; appId; "users"; str (userId s); "blog_posts";
         str (editingId s)]
  else
    collection ["artifacts"; appId; "users"; str (userId s); "blog_posts"].

Definition submitThrows (s : state) : bool :=
  negb (rejected_by_guard s) && throws (submitRef s).

(** The same for [handleDelete]. *)
Definition deleteRef (s : state) (id : string) : string + path :=
  doc ["artifacts"; appId; "users"; str (userId s); "blog_posts"; id].

Definition deleteThrows (s : state) (id : string) : bool :=
  is_some (db s) && truthy_opt (userId s) && throws (deleteRef s id).

(** When an event can occur: the authentication callback needs its
    listener, snapshots need a live subscription, and a button needs to
    be on the page (the list is rendered once [loading] is false, Cancel
    while editing).  A click is [SubmitRefused] or [DeleteRefused]
    exactly when building the reference throws. *)
Definition enabled (e : event) (w : world) : bool :=
  match e with
  | Mount _ => negb (mounted w)
  | AuthStateChanged _ _ => authListener w
  | Snapshot _ | SnapshotError _ => is_some (snapshotListener w)
  | ChangeTitle _ | ChangeAuthor _ | ChangeDescription _ => mounted w
  | Submit _ => mounted w && negb (submitThrows (st w))
  | SubmitRefused => mounted w && submitThrows (st w)
  | Edit i =>
      mounted w && negb (loading (st w)) && is_some (nth_error (blogs (st w)) i)
  | Delete i _ =>
      mounted w && negb (loading (st w)) &&
      match nth_error (blogs (st w)) i with
      | Some blog => negb (deleteThrows (st w) (Blog.id blog))
      | None => false
      end
  | DeleteRefused i =>
      mounted w && negb (loading (st w)) &&
      match nth_error (blogs (st w)) i with
      | Some blog => deleteThrows (st w) (Blog.id blog)
      | None => false
      end
  | Cancel => mounted w && truthy_opt (editingId (st w))
  end.

(** The code that runs for an event; [old] is the state of the render the
    event arrives in. *)
Definition handler (e : event) (old : state) : Act unit :=
  match e with
  | Mount thrown => set_mounted true ;; initEffect thrown ;; listenEffect old
  | AuthStateChanged user r => authCallback user r
  | Snapshot docs => onSnapshotNext docs
  | SnapshotError error => onSnapshotError error
  | ChangeTitle value => setTitle value
  | ChangeAuthor value => setAuthor value
  | ChangeDescription value => setDescription value
  | Submit r => handleSubmit r
  | SubmitRefused => handleSubmit Unsettled
  | Edit i =>
      match nth_error (blogs old) i with
      | Some blog => handleEdit blog
      | None => ret tt
      end
  | Delete i r =>
      match nth_error (blogs old) i with
      | Some blog => handleDelete (Blog.id blog) r
      | None => ret tt
      end
  | DeleteRefused i =>
      match nth_error (blogs old) i with
      | Some blog => handleDelete (Blog.id blog) Unsettled
      | None => ret tt
      end
  | Cancel => resetForm
  end.


(** The component's reaction to an event: the handler, then the next
    render. *)
Definition step (e : event) (w : world) : option world :=
  if enabled e w
  then Some (exec (rerender (st w)) (exec (handler e (st w)) w))
  else None.

(** A run of events from a state. *)
Fixpoint run (es : list event) (w : world) : option world :=
  match es with
  | [] => Some w
  | e :: es' =>
      match step e w with
      | Some w' => run es' w'
      | None => None
      end
  end.

(** The states the component can be in. *)
Inductive reachable : world -> Prop :=
| reachable_initial : reachable initial_world
| reachable_step (w w' : world) (e : event) :
    reachable w -> step e w = Some w' -> reachable w'.

(** What the page shows under "Your Posts": nothing of the list while
    loading, then the posts in the order of [blogs], each with its
    formatted date. *)
Definition visible (s : state) : list (Blog.t * string) :=
  if loading s then []
  else map (fun blog => (blog, formatDate (Blog.timestamp blog))) (blogs s).
End App.

(** ** Vocabulary of the statements *)

(** The ordering the specification words: posts without a resolved
    timestamp first, then the resolved ones by descending time.  This
    follows the specification's sentence, to be compared with what
    [onSnapshotNext] computes. *)
Definition spec_before (a b : Blog.t) : Prop :=
  match Blog.timestamp a, Blog.timestamp b with
  | TsObject ta, TsObject tb => (Timestamp.valueOf tb <= Timestamp.valueOf ta)%Z
  | TsObject _, _ => False
  | _, _ => True
  end.

Definition spec_ordered (l : list Blog.t) : Prop :=
  StronglySorted spec_before l.

(** The field names of an object literal. *)
Definition keys (data : payload) : list string := map fst data.

(** The numeric value the sort sees, for a timestamp that has one. *)
Definition tsKey (v : tsval) : Z :=
  match ToNumber v with
  | Num n => n
  | NaN => 0%Z
  end.

Definition blogKey (b : Blog.t) : Z := tsKey (Blog.timestamp b).


(** The document has a [timestamp] field, and a [Timestamp] in it is one
    the constructor accepts. *)
Definition has_timestamp (doc : Doc.t) : Prop :=
  match Data.timestamp (Doc.data doc) with
  | TsUndefined => False
  | TsNull | TsNumber _ => True
  | TsObject ts => Timestamp.valid ts
  end.


(** A server timestamp that is resolved.  Firestore's timestamps start
    with year 1; the first instant of that year is left out, its numeric
    value being 0. *)
Definition resolved (b : Blog.t) : Prop :=
  exists ts, Blog.timestamp b = TsObject ts /\
    (Timestamp.MIN_SECONDS < Timestamp.seconds ts)%Z /\
    (0 <= Timestamp.nanoseconds ts)%Z.

(** A server timestamp that is still pending. *)
Definition pending (b : Blog.t) : Prop := Blog.timestamp b = TsNull.

(** The form's part of the state. *)
Definition draft (s : state) : string * string * string * option string :=
  (title s, description s, author s, editingId s).

Definition empty_draft : string * string * string * option string :=
  ("", "", "", None).

(** The three text fields are filled in. *)
Definition filled (s : state) : Prop :=
  title s <> "" /\ description s <> "" /\ author s <> "".

Section SortOrder.
Context {A : Type}.
Variable comparefn : A -> A -> number.
Variable key : A -> Z.

(** The comparator orders the elements of [l] by descending [key]. *)
Definition by_key_desc (l : list A) : Prop :=
  forall x y, In x l -> In y l ->
    sorts_after comparefn x y = (key x <? key y)%Z.

Definition desc (a b : A) : Prop := (key b <= key a)%Z.

Definition has_key (k : Z) (x : A) : bool := (key x =? k)%Z.
End SortOrder.


(** A string that is one path segment: not empty and without a slash. *)
Fixpoint has_slash (s : string) : bool :=
  match s with
  | EmptyString => false
  | String c s' => Ascii.eqb c "/" || has_slash s'
  end.

Definition is_segment (s : string) : bool := truthy s && negb (has_slash s).

(** The segments Firestore makes of one argument. *)
Definition segments_of (s : string) : list string :=
  filter truthy (split_slash s).

(** The subscription that belongs to state [s]: the one on the user's
    collection, when there is a usable user id and the store accepts the
    path. *)
Definition listening (env : globals) (s : state) : option path :=
  if truthy_opt (userId s) then
    match blogsCollectionRef env (str (userId s)) with
    | inr ref => Some ref
    | inl _ => None
    end
  else None.

(** What holds of every state the component reaches: nothing is set
    before the mount; a user id is only ever stored together with
    clearing [loading], after the store handle; the authentication
    listener exists after the store handle; and the live subscription is
    the one that belongs to the state. *)
Definition invariant (env : globals) (w : world) : Prop :=
  (mounted w = false ->
   userId (st w) = None /\ db (st w) = None /\ authListener w = false) /\
  (userId (st w) <> None -> loading (st w) = false /\ db (st w) <> None) /\
  (authListener w = true -> db (st w) <> None) /\
  snapshotListener w = listening env (st w).


(** The events of the form and of the subscription; they leave the
    session alone. *)
Definition form_event (e : event) : Prop :=
  match e with
  | Mount _ | AuthStateChanged _ _ => False
  | _ => True
  end.

(** [w'] has the session of [w]: the user, the store handle and the
    listeners, and [loading] has not been set again. *)
Definition session_kept (w w' : world) : Prop :=
  userId (st w') = userId (st w) /\ db (st w') = db (st w) /\
  (loading (st w) = false -> loading (st w') = false) /\
  mounted w' = mounted w /\ authListener w' = authListener w /\
  snapshotListener w' = snapshotListener w.


(** The write [handleSubmit] awaits, on the reference [ref]. *)
Definition submit_call (s : state) (ref : path) : effect :=
  if truthy_opt (editingId s) then UpdateDoc ref (blogData s)
  else AddDoc ref (blogData s).

(** What [handleSubmit] does after its write. *)
Definition after_submit (r : settled) : Act unit :=
  match r with
  | Fulfilled => resetForm
  | Rejected error =>
      emit (ConsoleError "Error adding/updating document:" (Some error))
  | Unsettled => ret tt
  end.

(** ** Example data *)

Definition env1 : globals :=
  {| __app_id := Some "app1";
     __firebase_config := Some [("projectId", "demo")];
     __initial_auth_token := None |}.

(** The state after a run of events from the start. *)
Definition after (env : globals) (es : list event) : world :=
  match run env es initial_world with
  | Some w => w
  | None => initial_world
  end.

Definition sign_in_u1 : list event :=
  [Mount None; AuthStateChanged (Some "u1") Fulfilled].

Definition docA : Doc.t :=
  {| Doc.id := "A";
     Doc.data :=
       {| Data.title := "First"; Data.description := "Older post";
          Data.author := "Ada";
          Data.timestamp :=
            TsObject {| Timestamp.seconds := 1700000000;
                        Timestamp.nanoseconds := 0 |} |} |}.

Definition docB : Doc.t :=
  {| Doc.id := "B";
     Doc.data :=
       {| Data.title := "Hello"; Data.description := "World";
          Data.author := "Ada"; Data.timestamp := TsNull |} |}.

Definition fill_in_hello : list event :=
  [ChangeTitle "Hello"; ChangeDescription "World"; ChangeAuthor "Ada"].

(** A formatter for the examples: the milliseconds in decimal. *)
Definition millis_string (ms : Z) : string :=
  NilZero.string_of_int (Z.to_int ms).

(** User [u1] signed in under application [app1]. *)
Definition signed_in : world := Eval vm_compute in after env1 sign_in_u1.

(** A snapshot that lists the pending post before the resolved one. *)
Definition show_BA : list event := sign_in_u1 ++ [Snapshot [docB; docA]].

Definition listed_BA : world := Eval vm_compute in after env1 show_BA.

Definition after_error : world :=
  Eval vm_compute in after env1 (show_BA ++ [SnapshotError "unavailable"]).

(** Post [A] opened in the form and its title changed. *)
Definition edit_docA : list event :=
  sign_in_u1 ++ [Snapshot [docA]; Edit 0; ChangeTitle "First, revised"].

Definition editing_docA : world := Eval vm_compute in after env1 edit_docA.

Definition updated_docA : world :=
  Eval vm_compute in after env1 (edit_docA ++ [Submit Fulfilled]).

(** A new post typed into the empty form. *)
Definition type_hello : list event := sign_in_u1 ++ fill_in_hello.

Definition hello_filled : world := Eval vm_compute in after env1 type_hello.

Definition hello_created : world :=
  Eval vm_compute in after env1 (type_hello ++ [Submit Fulfilled]).

Definition hello_rejected : world :=
  Eval vm_compute in
    after env1 (type_hello ++ [Submit (Rejected "unavailable")]).

(** The form without an author. *)
Definition type_no_author : list event :=
  sign_in_u1 ++ [ChangeTitle "Hello"; ChangeDescription "World"].

Definition no_author : world := Eval vm_compute in after env1 type_no_author.

Definition no_author_submitted : world :=
  Eval vm_compute in after env1 (type_no_author ++ [Submit Fulfilled]).

(** User [u2] signs in after [u1]. *)
Definition switched_to_u2 : world :=
  Eval vm_compute in
    after env1 (show_BA ++ [AuthStateChanged (Some "u2") Fulfilled]).

(** ** The page

    What the JSX shows of the state: the user id in the header, the
    form's heading, its inputs and buttons, and under "Your Posts" one of
    three panels. *)
Inductive panel : Type :=
| LoadingPosts
| NoPosts
| Posts (rows : list (Blog.t * string)).

Record page : Type :=
  { userIdShown : option string;
    heading : string;
    titleInput : string;
    authorInput : string;
    descriptionInput : string;
    submitLabel : string;
    cancelButton : bool;
    postsPanel : panel }.

Definition render (toLocaleString : Z -> string) (s : state) : page :=
  {| userIdShown := userId s;
     heading :=
       if truthy_opt (editingId s) then "Edit Blog Post"
       else "Create New Post";
     titleInput := title s;
     authorInput := author s;
     descriptionInput := description s;
     submitLabel :=
       if truthy_opt (editingId s) then "Update Post" else "Add Post";
     cancelButton := truthy_opt (editingId s);
     postsPanel :=
       if loading s then LoadingPosts
       else if (length (blogs s) =? 0)%nat then NoPosts
       else
         Posts
           (map (fun blog =>
                   (blog, formatDate toLocaleString (Blog.timestamp blog)))
              (blogs s)) |}.

(** ** Vocabulary of the further properties *)

(** The component is mounted without a store handle and without the
    authentication listener: the configuration was missing, or the
    initialisation threw. *)
Definition without_store (w : world) : Prop :=
  mounted w = true /\ db (st w) = None /\ authListener w = false /\
  userId (st w) = None /\ snapshotListener w = None.


(** The blog-post collection of some user, and a document in it, as the
    store cuts the user id and the document id into segments. *)
Definition user_collection (env : globals) (ref : path) : Prop :=
  exists uid, uid <> "" /\
    ref = ["artifacts"; appId env; "users"] ++ segments_of uid ++
          ["blog_posts"].

Definition user_document (env : globals) (ref : path) : Prop :=
  exists uid id, uid <> "" /\
    ref = ["artifacts"; appId env; "users"] ++ segments_of uid ++
          ["blog_posts"] ++ segments_of id.

(** An effect that reaches the store stays inside the users' blog-post
    collections. *)
Definition scoped (env : globals) (e : effect) : Prop :=
  match e with
  | OnSnapshot ref | Unsubscribe ref | AddDoc ref _ => user_collection env ref
  | UpdateDoc ref _ | DeleteDoc ref => user_document env ref
  | _ => True
  end.


(** Neither opens nor closes a subscription. *)
Definition quiet (e : effect) : bool :=
  match e with
  | OnSnapshot _ | Unsubscribe _ => false
  | _ => true
  end.

Definition path_eqb (p q : path) : bool :=
  if list_eq_dec string_dec p q then true else false.

(** The subscription that is open after a trace, read from the trace
    alone, starting with [cur] open.  There is no answer when the trace
    opens a subscription while one is open, or closes one that is not the
    open one. *)
Fixpoint subscriptions (tr : list effect) (cur : option path)
    : option (option path) :=
  match tr with
  | [] => Some cur
  | OnSnapshot ref :: tr' =>
      match cur with
      | None => subscriptions tr' (Some ref)
      | Some _ => None
      end
  | Unsubscribe ref :: tr' =>
      match cur with
      | Some ref' =>
          if path_eqb ref ref' then subscriptions tr' None else None
      | None => None
      end
  | _ :: tr' => subscriptions tr' cur
  end.


(** What the second effect meets in state [s]: nothing to do, a
    reference, or a throw. *)
Definition listen (env : globals) (s : state) : option (string + path) :=
  if is_some (db s) && truthy_opt (userId s)
  then Some (blogsCollectionRef env (str (userId s)))
  else None.

(** What the next render adds when the state went from [old] to [s] and
    [cur] was the open subscription. *)
Definition resubscription (env : globals) (old s : state)
    (cur : option path) : list effect :=
  if deps_changed old s then
    match cur with
    | Some ref => [Unsubscribe ref]
    | None => []
    end ++
    match listen env s with
    | Some (inr ref) => [OnSnapshot ref]
    | Some (inl error) =>
        [ConsoleError "Firestore snapshot error:" (Some error)]
    | None => []
    end
  else [].

(** The subscription the next render leaves, in the same situation. *)
Definition resubscribed (env : globals) (old s : state)
    (cur : option path) : option path :=
  if deps_changed old s then
    match listen env s with
    | Some (inr ref) => Some ref
    | _ => None
    end
  else cur.

(** The state with [loading] cleared. *)
Definition loaded (s : state) : state :=
  {| blogs := blogs s; title := title s; description := description s;
     author := author s; editingId := editingId s; loading := false;
     userId := userId s; db := db s; auth := auth s |}.

(** The state the next render leaves: the catch block of the second
    effect clears [loading]. *)
Definition rerendered (env : globals) (old s : state) : state :=
  if deps_changed old s then
    match listen env s with
    | Some (inl _) => loaded s
    | _ => s
    end
  else s.

(** Harmless for the subscription, and inside the users' collections
    when the application id is one path segment. *)
Definition plain (env : globals) (e : effect) : Prop :=
  quiet e = true /\ (is_segment (appId env) = true -> scoped env e).

(** ** More example data *)

(** No configuration on the page. *)
Definition env0 : globals :=
  {| __app_id := None; __firebase_config := None;
     __initial_auth_token := None |}.

(** A bootstrap token on the page. *)
Definition env_token : globals :=
  {| __app_id := Some "app1";
     __firebase_config := Some [("projectId", "demo")];
     __initial_auth_token := Some "token-1" |}.

Definition unconfigured : world :=
  Eval vm_compute in after env0 [Mount None].

Definition unconfigured_submitted : world :=
  Eval vm_compute in
    after env0 (Mount None :: fill_in_hello ++ [Submit Fulfilled]).

Definition init_failed : world :=
  Eval vm_compute in after env1 [Mount (Some "invalid options")].

Definition init_failed_submitted : world :=
  Eval vm_compute in
    after env1
      (Mount (Some "invalid options") :: fill_in_hello ++ [Submit Fulfilled]).

Definition token_mounted : world :=
  Eval vm_compute in after env_token [Mount None].

Definition token_denied : world :=
  Eval vm_compute in
    after env_token [Mount None; AuthStateChanged None (Rejected "denied")].

Definition same_user_again : world :=
  Eval vm_compute in
    after env1 (show_BA ++ [AuthStateChanged (Some "u1") Fulfilled]).

Definition editing_A_unchanged : world :=
  Eval vm_compute in after env1 (sign_in_u1 ++ [Snapshot [docA]; Edit 0]).

Definition listed_A : world :=
  Eval vm_compute in after env1 (sign_in_u1 ++ [Snapshot [docA]]).

Definition resubmitted_A : world :=
  Eval vm_compute in
    after env1 (sign_in_u1 ++ [Snapshot [docA]; Edit 0; Submit Fulfilled]).

Definition hello_retried : world :=
  Eval vm_compute in
    after env1
      (type_hello ++ [Submit (Rejected "unavailable"); Submit Fulfilled]).

Definition hello_created_twice : world :=
  Eval vm_compute in
    after env1 (type_hello ++ [Submit Fulfilled; Submit Fulfilled]).


(** An application id that is the empty string. *)
Definition env_blank : globals :=
  {| __app_id := Some "";
     __firebase_config := Some [("projectId", "demo")];
     __initial_auth_token := None |}.

Definition blank_mounted : world :=
  Eval vm_compute in after env_blank [Mount None].

Definition blank_signed_in : world :=
  Eval vm_compute in after env_blank sign_in_u1.

Definition blank_filled : world :=
  Eval vm_compute in after env_blank type_hello.

Definition blank_submitted : world :=
  Eval vm_compute in after env_blank (type_hello ++ [SubmitRefused]).







(** Post [A] deleted from the list while user [x/y] is stored. *)
Definition stale_list : list event :=
  show_BA ++ [AuthStateChanged (Some "x/y") Fulfilled].

Definition stale_listed : world := Eval vm_compute in after env1 stale_list.

Definition stale_delete : world :=
  Eval vm_compute in after env1 (stale_list ++ [DeleteRefused 0]).

(** * Facts about the sort *)
Section SortFacts.
Context {A : Type}.
Variable comparefn : A -> A -> number.
Variable key : A -> Z.

Local Abbreviation by_key_desc := (by_key_desc comparefn key).
Local Abbreviation desc := (desc key).
Local Abbreviation has_key := (has_key key).

Lemma sort_insert_perm (x : A) (l : list A) :
  Permutation (x :: l) (sort_insert comparefn x l).
Proof.
  induction l as [|y l IH]; simpl.
  - apply Permutation_refl.
  - destruct (sorts_after comparefn x y).
    + eapply perm_trans; [apply perm_swap|].
      apply perm_skip, IH.
    + apply Permutation_refl.
Qed.

Lemma js_sort_perm (l : list A) : Permutation l (js_sort comparefn l).
Proof.
  induction l as [|x l IH]; simpl.
  - apply perm_nil.
  - eapply perm_trans; [apply perm_skip, IH|].
    apply sort_insert_perm.
Qed.

Lemma js_sort_In (l : list A) (x : A) :
  In x (js_sort comparefn l) <-> In x l.
Proof.
  split; apply Permutation_in;
    [apply Permutation_sym|]; apply js_sort_perm.
Qed.

Lemma by_key_desc_tail (x : A) (l : list A) :
  by_key_desc (x :: l) -> by_key_desc l.
Proof.
  intros H a b Ha Hb. apply H; right; assumption.
Qed.

Lemma sort_insert_sorted (x : A) (l : list A) :
  (forall y, In y l -> sorts_after comparefn x y = (key x <? key y)%Z) ->
  StronglySorted desc l ->
  StronglySorted desc (sort_insert comparefn x l).
Proof.
  induction l as [|y l IH]; intros Hx Hs; simpl.
  - constructor; [constructor | constructor].
  - inversion Hs as [|? ? Hs' Hall]; subst.
    rewrite (Hx y (or_introl eq_refl)).
    destruct (Z.ltb_spec (key x) (key y)) as [Hlt|Hge].
    + constructor.
      * apply IH; [intros z Hz; apply Hx; right; exact Hz | exact Hs'].
      * rewrite Forall_forall. intros z Hz.
        apply (Permutation_in _ (Permutation_sym (sort_insert_perm x l)))
          in Hz.
        destruct Hz as [<-|Hz].
        -- unfold desc. lia.
        -- rewrite Forall_forall in Hall. apply Hall, Hz.
    + constructor; [exact Hs|].
      constructor; [unfold desc; lia|].
      rewrite Forall_forall in Hall |- *.
      intros z Hz. specialize (Hall z Hz). unfold desc in *. lia.
Qed.

Lemma js_sort_sorted (l : list A) :
  by_key_desc l -> StronglySorted desc (js_sort comparefn l).
Proof.
  induction l as [|x l IH]; intros H; simpl.
  - constructor.
  - apply sort_insert_sorted.
    + intros y Hy. apply H; [left; reflexivity|].
      right. apply js_sort_In, Hy.
    + apply IH, (by_key_desc_tail x), H.
Qed.

Lemma sort_insert_filter (k : Z) (x : A) (l : list A) :
  (forall y, In y l -> sorts_after comparefn x y = (key x <? key y)%Z) ->
  filter (has_key k) (sort_insert comparefn x l) =
  filter (has_key k) (x :: l).
Proof.
  induction l as [|y l IH]; intros Hx; [reflexivity|].
  simpl sort_insert.
  rewrite (Hx y (or_introl eq_refl)).
  destruct (Z.ltb_spec (key x) (key y)) as [Hlt|Hge]; [|reflexivity].
  assert (IH' := IH (fun z Hz => Hx z (or_intror Hz))).
  simpl in IH' |- *. rewrite IH'. unfold has_key.
  destruct (Z.eqb_spec (key x) k), (Z.eqb_spec (key y) k);
    try reflexivity; lia.
Qed.

(** Elements of equal key keep their order. *)
Lemma js_sort_stable (k : Z) (l : list A) :
  by_key_desc l ->
  filter (has_key k) (js_sort comparefn l) = filter (has_key k) l.
Proof.
  induction l as [|x l IH]; intros H; [reflexivity|].
  simpl js_sort. rewrite sort_insert_filter.
  - simpl. rewrite (IH (by_key_desc_tail x l H)). reflexivity.
  - intros y Hy. apply H; [left; reflexivity|].
    right. apply js_sort_In, Hy.
Qed.

Lemma filter_has_key_head (x : A) (l : list A) :
  filter (has_key (key x)) (x :: l) = x :: filter (has_key (key x)) l.
Proof.
  simpl. unfold has_key at 1. rewrite Z.eqb_refl. reflexivity.
Qed.

Lemma sorted_head_key (x y : A) (l1 l2 : list A) :
  StronglySorted desc (x :: l1) ->
  filter (has_key (key y)) (x :: l1) = filter (has_key (key y)) (y :: l2) ->
  (key y <= key x)%Z.
Proof.
  intros Hs Hf.
  assert (Hin : In y (filter (has_key (key y)) (x :: l1))).
  { rewrite Hf, filter_has_key_head. left; reflexivity. }
  apply filter_In in Hin. destruct Hin as [[<-|Hin] _]; [lia|].
  inversion Hs as [|? ? _ Hall]; subst.
  rewrite Forall_forall in Hall. apply (Hall y Hin).
Qed.

(** A list is determined by being sorted by descending key and by the
    order of its elements of each key: the result of a stable sort does
    not depend on the sorting algorithm. *)
Lemma stable_sorted_unique (l1 l2 : list A) :
  StronglySorted desc l1 -> StronglySorted desc l2 ->
  (forall k, filter (has_key k) l1 = filter (has_key k) l2) ->
  l1 = l2.
Proof.
  revert l2. induction l1 as [|x l1 IH]; intros l2 H1 H2 Hf.
  - destruct l2 as [|y l2]; [reflexivity|].
    specialize (Hf (key y)). rewrite filter_has_key_head in Hf.
    discriminate Hf.
  - destruct l2 as [|y l2].
    + specialize (Hf (key x)). rewrite filter_has_key_head in Hf.
      discriminate Hf.
    + assert (Hxy : key x = key y).
      { apply Z.le_antisymm.
        - apply (sorted_head_key y x l2 l1 H2). symmetry. apply Hf.
        - apply (sorted_head_key x y l1 l2 H1). apply Hf. }
      assert (Hhd := Hf (key x)).
      rewrite filter_has_key_head in Hhd.
      rewrite Hxy in Hhd at 2. rewrite filter_has_key_head in Hhd.
      rewrite <- Hxy in Hhd.
      injection Hhd as -> Hhd.
      f_equal. apply IH.
      * inversion H1; assumption.
      * inversion H2; assumption.
      * intros k. specialize (Hf k). simpl in Hf.
        destruct (has_key k y) eqn:Hk; [|exact Hf].
        injection Hf as Hf. exact Hf.
Qed.
End SortFacts.

(** * Facts about rounding *)

Lemma half_even_lower (a b : Z) : (0 < b)%Z -> (a / b <= half_even a b)%Z.
Proof.
  intros Hb. unfold half_even.
  destruct (2 * (a mod b) <? b)%Z; [lia|].
  destruct (b <? 2 * (a mod b))%Z; [lia|].
  destruct (Z.even (a / b)); lia.
Qed.

(** A value of one unit or more rounds to a positive double. *)
Lemma round_pos_positive (num den : Z) :
  (0 < den <= num)%Z -> (0 < round_pos num den)%Z.
Proof.
  intros [Hd Hn]. unfold round_pos.
  assert (Hq : (1 <= num / den)%Z) by (apply Z.div_le_lower_bound; lia).
  set (q := (num / den)%Z) in *.
  set (k := Z.max 0 (Z.log2 q - 52)).
  assert (Hk : (0 <= k)%Z) by lia.
  assert (Hp : (0 < 2 ^ k)%Z) by (apply Z.pow_pos_nonneg; lia).
  assert (Hle : (2 ^ k <= q)%Z).
  { destruct (Z.log2_spec q ltac:(lia)) as [Hlog _].
    apply Z.le_trans with (2 ^ Z.log2 q)%Z; [|exact Hlog].
    apply Z.pow_le_mono_r; [lia|].
    pose proof (Z.log2_nonneg q). lia. }
  apply Z.mul_pos_pos; [|exact Hp].
  eapply Z.lt_le_trans; [|apply half_even_lower; lia].
  rewrite <- Z.div_div by lia. fold q.
  apply Z.div_str_pos. lia.
Qed.

Lemma round_pos_zero (den : Z) : (0 < den)%Z -> round_pos 0 den = 0%Z.
Proof.
  intros Hd. unfold round_pos. rewrite Z.div_0_l by lia.
  change (Z.max 0 (Z.log2 0 - 52)) with 0%Z.
  change (2 ^ 0)%Z with 1%Z. rewrite !Z.mul_1_r.
  unfold half_even. rewrite Z.div_0_l, Z.mod_0_l by lia.
  destruct (Z.ltb_spec (2 * 0) den); [reflexivity | lia].
Qed.

(** Rounding keeps the sign, for a value that is zero or at least one
    unit either way. *)
Lemma fl_sign (num den : Z) :
  (0 < den)%Z -> (num = 0 \/ den <= Z.abs num)%Z ->
  exists v, fl num den = Num v /\ (0 <? v)%Z = (0 <? num)%Z.
Proof.
  intros Hd Hn. unfold fl.
  destruct (Z.leb_spec den 0) as [|_]; [lia|].
  destruct (Z.ltb_spec num 0) as [Hneg|Hpos].
  - pose proof (round_pos_positive (- num) den ltac:(lia)) as H.
    eexists. split; [reflexivity|].
    destruct (Z.ltb_spec 0 (- round_pos (- num) den)),
             (Z.ltb_spec 0 num); try reflexivity; lia.
  - destruct Hn as [-> | Hn].
    + rewrite round_pos_zero by exact Hd. eexists. split; reflexivity.
    + pose proof (round_pos_positive num den ltac:(lia)) as H.
      eexists. split; [reflexivity|].
      destruct (Z.ltb_spec 0 (round_pos num den)),
               (Z.ltb_spec 0 num); try reflexivity; lia.
Qed.

(** The sign of a difference of doubles tells which one is larger. *)
Lemma js_sub_sign (a b : Z) :
  exists v, js_sub (Num b) (Num a) = Num v /\ (0 <? v)%Z = (a <? b)%Z.
Proof.
  destruct (fl_sign (b - a) 1 ltac:(lia) ltac:(lia)) as (v & Hv & Hs).
  exists v. split; [exact Hv|]. rewrite Hs.
  destruct (Z.ltb_spec 0 (b - a)), (Z.ltb_spec a b); try reflexivity; lia.
Qed.

Lemma nano_le_one : (nano <= one)%Z.
Proof. apply Z.leb_le. vm_compute. reflexivity. Qed.

Lemma one_positive : (0 < one)%Z.
Proof. pose proof nano_le_one. unfold nano in *. lia. Qed.

Lemma ToNumber_Num (v : tsval) :
  v <> TsUndefined -> exists n, ToNumber v = Num n.
Proof.
  destruct v as [| |ts|ms]; intros H; [congruence| | |].
  - exists 0%Z. reflexivity.
  - unfold ToNumber, StringToNumber, fl. change (nano <=? 0)%Z with false.
    cbv iota. destruct (_ <? 0)%Z; eexists; reflexivity.
  - unfold ToNumber, of_Z, fl. change (1 <=? 0)%Z with false.
    cbv iota. destruct (_ <? 0)%Z; eexists; reflexivity.
Qed.

(** The numeral of a later instant than 0001-01-01 is a positive
    number. *)
Lemma StringToNumber_positive (k : Z) :
  (0 < k)%Z -> exists v, StringToNumber k = Num v /\ (0 < v)%Z.
Proof.
  intros Hk. pose proof nano_le_one as Hone.
  assert (Hnano : (0 < nano)%Z) by (unfold nano; lia).
  destruct (fl_sign (k * one) nano Hnano) as (v & Hv & Hs).
  - right. rewrite Z.abs_eq by nia. nia.
  - exists v. split; [exact Hv|].
    assert (H : (0 <? k * one)%Z = true) by (apply Z.ltb_lt; nia).
    rewrite H in Hs. apply Z.ltb_lt, Hs.
Qed.

(** ** How far rounding moves a value *)
Section Rounding.
Local Open Scope Z_scope.

Lemma half_even_upper (a b : Z) : 0 < b -> half_even a b <= a / b + 1.
Proof.
  intros Hb. unfold half_even.
  destruct (2 * (a mod b) <? b)%Z; [lia|].
  destruct (b <? 2 * (a mod b))%Z; [lia|].
  destruct (Z.even (a / b)); lia.
Qed.

(** The spacing of the doubles around a value is at most the value. *)
Lemma spacing_le (q : Z) :
  1 <= q -> 0 < 2 ^ Z.max 0 (Z.log2 q - 52) <= q.
Proof.
  intros Hq. split; [apply Z.pow_pos_nonneg; lia|].
  destruct (Z.log2_spec q ltac:(lia)) as [Hlog _].
  apply Z.le_trans with (2 ^ Z.log2 q)%Z; [|exact Hlog].
  apply Z.pow_le_mono_r; [lia|].
  pose proof (Z.log2_nonneg q). lia.
Qed.

(** Rounding at most doubles a value, and at most halves it. *)
Lemma round_pos_bounds (num den : Z) :
  0 <= num -> 0 < den ->
  0 <= round_pos num den <= 2 * (num / den) + 1 /\
  num / den <= 2 * round_pos num den.
Proof.
  intros Hn Hd. unfold round_pos.
  assert (Hq : 0 <= num / den) by (apply Z.div_pos; lia).
  set (q := num / den) in *.
  set (k := Z.max 0 (Z.log2 q - 52)).
  assert (Hp : 0 < 2 ^ k /\ (2 ^ k <= q \/ q = 0 /\ 2 ^ k = 1)).
  { destruct (Z.eq_dec q 0) as [H0|H0].
    - unfold k. rewrite H0. simpl. lia.
    - destruct (spacing_le q ltac:(lia)). fold k in H, H1. lia. }
  destruct Hp as [Hp Hk].
  pose proof (half_even_lower num (den * 2 ^ k) ltac:(nia)) as Hlo.
  pose proof (half_even_upper num (den * 2 ^ k) ltac:(nia)) as Hup.
  rewrite <- Z.div_div in Hlo, Hup by lia. fold q in Hlo, Hup.
  pose proof (Z.mul_div_le q (2 ^ k) Hp) as Hfloor.
  pose proof (Z.mod_pos_bound q (2 ^ k) Hp) as Hmod.
  pose proof (Z.div_mod q (2 ^ k) ltac:(lia)) as Hdm.
  assert (0 <= q / 2 ^ k) by (apply Z.div_pos; lia).
  assert (q = 0 \/ 1 <= q / 2 ^ k).
  { destruct Hk as [Hk|[Hk _]]; [right | left; exact Hk].
    apply Z.div_le_lower_bound; lia. }
  nia.
Qed.

Lemma fl_bounds (num den : Z) :
  0 < den ->
  exists v, fl num den = Num v /\
    Z.abs v <= 2 * (Z.abs num / den) + 1 /\
    Z.abs num / den <= 2 * Z.abs v /\
    (0 <= num -> 0 <= v).
Proof.
  intros Hd. unfold fl.
  destruct (Z.leb_spec den 0) as [|_]; [lia|].
  destruct (Z.ltb_spec num 0) as [Hneg|Hpos].
  - destruct (round_pos_bounds (- num) den ltac:(lia) Hd) as (H1 & H2).
    eexists. split; [reflexivity|].
    rewrite Z.abs_opp, (Z.abs_eq (round_pos _ _)) by lia.
    rewrite (Z.abs_neq num) by lia. lia.
  - destruct (round_pos_bounds num den Hpos Hd) as (H1 & H2).
    eexists. split; [reflexivity|].
    rewrite (Z.abs_eq (round_pos _ _)), (Z.abs_eq num) by lia. lia.
Qed.

Lemma of_Z_bounds (z : Z) :
  exists v, of_Z z = Num v /\
    Z.abs v <= 2 * Z.abs z * one + 1 /\
    Z.abs z * one <= 2 * Z.abs v /\
    (0 <= z -> 0 <= v).
Proof.
  pose proof one_positive as Hone.
  destruct (fl_bounds (z * one) 1 ltac:(lia)) as (v & Hv & H1 & H2 & H3).
  rewrite Z.div_1_r, Z.abs_mul, (Z.abs_eq one) in H1, H2 by lia.
  exists v. split; [exact Hv|]. split; [lia|]. split; [lia|].
  intros Hz. apply H3. apply Z.mul_nonneg_nonneg; lia.
Qed.

(** A [Timestamp] the constructor accepts has a valid date. *)
Lemma toDate_valid (ts : Timestamp.t) :
  Timestamp.valid ts -> exists ms, Timestamp.toDate ts = Some ms.
Proof.
  intros [Hs Hn]. unfold Timestamp.MIN_SECONDS, nano in *.
  unfold Timestamp.toDate, Timestamp.toMillis.
  pose proof one_positive as Hone.
  destruct (of_Z_bounds (Timestamp.seconds ts)) as (a & -> & Ha & _).
  destruct (of_Z_bounds 1000) as (b & -> & Hb & _).
  destruct (of_Z_bounds (Timestamp.nanoseconds ts)) as (c & -> & Hc & _ & Hc0).
  destruct (of_Z_bounds 1000000) as (d & -> & _ & Hd & Hd0).
  specialize (Hc0 ltac:(lia)). specialize (Hd0 ltac:(lia)).
  change (Z.abs 1000) with 1000 in Hb.
  change (Z.abs 1000000) with 1000000 in Hd.
  rewrite (Z.abs_eq c) in Hc by exact Hc0.
  rewrite (Z.abs_eq (Timestamp.nanoseconds ts)) in Hc by lia.
  rewrite (Z.abs_eq d) in Hd by exact Hd0.
  set (s := Z.abs (Timestamp.seconds ts)) in *.
  assert (Hs' : 0 <= s <= 253402300800) by (unfold s; lia).
  cbn [js_mul js_div js_add].
  destruct (Z.ltb_spec d 0) as [|_]; [clear - H Hd Hone; hide_one; lia|].
  destruct (fl_bounds (a * b) one Hone) as (p & -> & Hp & _).
  destruct (fl_bounds (c * one) d ltac:(clear - Hd Hone; hide_one; lia))
    as (q & -> & Hq & _).
  cbn [js_add].
  destruct (fl_bounds (p + q) 1 ltac:(lia)) as (v & -> & Hv & _).
  rewrite Z.div_1_r in Hv.
  assert (Hab : Z.abs (a * b) / one <= 4000 * s * one + 2 * s + 2001).
  { apply Z.div_le_upper_bound; [exact Hone|].
    rewrite Z.abs_mul.
    apply Z.le_trans with ((2 * s * one + 1) * (2000 * one + 1)).
    - apply Z.mul_le_mono_nonneg; [apply Z.abs_nonneg | exact Ha
                                   | apply Z.abs_nonneg | exact Hb].
    - clear - Hs' Hone. hide_one. nia. }
  assert (Hcd : Z.abs (c * one) / d <= 4001 * one).
  { apply Z.div_le_upper_bound; [clear - Hd Hone; hide_one; lia|].
    rewrite Z.abs_mul, (Z.abs_eq c), (Z.abs_eq one)
      by (clear - Hc0 Hone; hide_one; lia).
    clear - Hn Hc Hc0 Hd Hd0 Hone. hide_one. nia. }
  unfold newDate.
  destruct (Z.leb_spec (Z.abs v) (8640000000000000 * one)) as [_|Hbig].
  - eexists. reflexivity.
  - exfalso.
    pose proof (Z.abs_triangle p q) as Htri.
    clear - Hs' Hp Hq Hv Hab Hcd Hbig Htri Hone.
    repeat match goal with
           | H : context [Z.abs ?x / ?y] |- _ =>
               generalize dependent (Z.abs x / y); intros
           end.
    hide_one. nia.
Qed.

(** The date of a timestamp is the rounded sum, cut toward zero: the
    last nanosecond of a second can reach the next second, and before
    the epoch the cut goes up. *)
Lemma toDate_examples :
  Timestamp.toDate {| Timestamp.seconds := 1700000000;
                      Timestamp.nanoseconds := 123456789 |} =
    Some 1700000000123 /\
  Timestamp.toDate {| Timestamp.seconds := 1700000000;
                      Timestamp.nanoseconds := 999999999 |} =
    Some 1700000001000 /\
  Timestamp.toDate {| Timestamp.seconds := -1;
                      Timestamp.nanoseconds := 1 |} =
    Some (-999).
Proof.
  split; [vm_compute; reflexivity|].
  split; vm_compute; reflexivity.
Qed.
End Rounding.

(** * Facts about paths *)

Lemma split_slash_segment (s : string) :
  has_slash s = false -> split_slash s = [s].
Proof.
  induction s as [|c s IH]; simpl; [reflexivity|].
  intros H. apply orb_false_iff in H. destruct H as [Hc Hs].
  rewrite Hc, (IH Hs). reflexivity.
Qed.

Lemma has_double_slash_segment (s : string) :
  has_slash s = false -> has_double_slash s = false.
Proof.
  induction s as [|c s IH]; [reflexivity|].
  intros H. simpl in H. apply orb_false_iff in H. destruct H as [Hc Hs].
  destruct s as [|d s']; [reflexivity|].
  change (has_double_slash (String c (String d s')))
    with ((Ascii.eqb c "/" && Ascii.eqb d "/")
          || has_double_slash (String d s')).
  rewrite Hc, (IH Hs). reflexivity.
Qed.

Lemma is_segment_spec (s : string) :
  is_segment s = true ->
  s <> "" /\ segments_of s = [s] /\ has_double_slash s = false.
Proof.
  unfold is_segment. intros H. apply andb_true_iff in H.
  destruct H as [Ht Hs]. apply negb_true_iff in Hs.
  split; [apply String.eqb_neq, negb_true_iff, Ht|].
  split; [|apply has_double_slash_segment, Hs].
  unfold segments_of. rewrite (split_slash_segment s Hs). simpl.
  rewrite Ht. reflexivity.
Qed.

(** What [fromString] returns when it returns. *)
Lemma fromString_inr (l : list string) (segments : path) :
  fromString l = inr segments -> segments = flat_map segments_of l.
Proof.
  revert segments. induction l as [|p l IH]; simpl; intros segments H.
  - congruence.
  - destruct (has_double_slash p); [discriminate|].
    destruct (fromString l) as [error|rest]; [discriminate|].
    injection H as <-. rewrite (IH rest eq_refl). reflexivity.
Qed.

Lemma fromString_segments (l : list string) :
  Forall (fun s => is_segment s = true) l -> fromString l = inr l.
Proof.
  induction 1 as [|p l Hp _ IH]; [reflexivity|].
  destruct (is_segment_spec p Hp) as (_ & Hs & Hd).
  simpl. rewrite Hd, IH. unfold segments_of in Hs. rewrite Hs. reflexivity.
Qed.

Lemma collection_inr (l : list string) (ref : path) :
  collection l = inr ref -> ref = flat_map segments_of l.
Proof.
  unfold collection. destruct (fromString l) as [error|segments] eqn:H;
    [discriminate|].
  destruct (Nat.even (length segments)); [discriminate|].
  intros [= <-]. apply fromString_inr, H.
Qed.

Lemma doc_inr (l : list string) (ref : path) :
  doc l = inr ref -> ref = flat_map segments_of l.
Proof.
  unfold doc. destruct (fromString l) as [error|segments] eqn:H;
    [discriminate|].
  destruct (Nat.even (length segments)); [|discriminate].
  intros [= <-]. apply fromString_inr, H.
Qed.

(** With an application id and a user id of one segment each, the
    collection is the one of these five segments. *)
Lemma collection_segments (app uid : string) :
  is_segment app = true -> is_segment uid = true ->
  collection ["artifacts"; app; "users"; uid; "blog_posts"] =
  inr ["artifacts"; app; "users"; uid; "blog_posts"].
Proof.
  intros Ha Hu. unfold collection. rewrite fromString_segments.
  - reflexivity.
  - repeat constructor; assumption.
Qed.

Lemma doc_segments (app uid id : string) :
  is_segment app = true -> is_segment uid = true -> is_segment id = true ->
  doc ["artifacts"; app; "users"; uid; "blog_posts"; id] =
  inr ["artifacts"; app; "users"; uid; "blog_posts"; id].
Proof.
  intros Ha Hu Hi. unfold doc. rewrite fromString_segments.
  - reflexivity.
  - repeat constructor; assumption.
Qed.

(** With an application id of one segment, whatever the user id and the
    document id are, a reference lies under that application's users. *)
Lemma collection_shape (app uid : string) (ref : path) :
  is_segment app = true ->
  collection ["artifacts"; app; "users"; uid; "blog_posts"] = inr ref ->
  ref = ["artifacts"; app; "users"] ++ segments_of uid ++ ["blog_posts"].
Proof.
  intros Ha H. apply collection_inr in H. rewrite H.
  destruct (is_segment_spec app Ha) as (_ & Hs & _).
  cbn [flat_map]. rewrite Hs, app_nil_r. reflexivity.
Qed.

Lemma doc_shape (app uid id : string) (ref : path) :
  is_segment app = true ->
  doc ["artifacts"; app; "users"; uid; "blog_posts"; id] = inr ref ->
  ref = ["artifacts"; app; "users"] ++ segments_of uid ++ ["blog_posts"] ++
        segments_of id.
Proof.
  intros Ha H. apply doc_inr in H. rewrite H.
  destruct (is_segment_spec app Ha) as (_ & Hs & _).
  cbn [flat_map]. rewrite Hs, app_nil_r. reflexivity.
Qed.

Lemma throws_false {A : Type} (x : string + A) :
  throws x = false -> exists a, x = inr a.
Proof. destruct x as [error|a]; [discriminate|]. exists a. reflexivity. Qed.

Lemma throws_true {A : Type} (x : string + A) :
  throws x = true -> exists error, x = inl error.
Proof.
  destruct x as [error|a]; [|discriminate]. exists error. reflexivity.
Qed.

(** * Running handlers *)

Lemma exec_seq (m k : Act unit) (w : world) :
  exec (m ;; k) w = exec k (exec m w).
Proof. unfold exec, bind. destruct (m w). reflexivity. Qed.

Lemma exec_get (k : state -> Act unit) (w : world) :
  exec (s <- get ;; k s) w = exec (k (st w)) w.
Proof. reflexivity. Qed.

Lemma truthy_true (s : string) : truthy s = true <-> s <> "".
Proof.
  unfold truthy. rewrite negb_true_iff. apply String.eqb_neq.
Qed.

Lemma truthy_false (s : string) : truthy s = false <-> s = "".
Proof.
  unfold truthy. rewrite negb_false_iff. apply String.eqb_eq.
Qed.

Lemma truthy_opt_str (o : option string) :
  truthy_opt o = true -> str o <> "".
Proof.
  destruct o as [s|]; simpl; [|discriminate]. apply truthy_true.
Qed.

Lemma option_eqb_refl {A : Type} (eqb : A -> A -> bool) (x : option A) :
  (forall a, eqb a a = true) -> option_eqb eqb x x = true.
Proof. intros H. destruct x; simpl; auto. Qed.

Lemma option_eqb_string (x y : option string) :
  option_eqb String.eqb x y = true -> x = y.
Proof.
  destruct x, y; simpl; try discriminate; [|reflexivity].
  intros H. apply String.eqb_eq in H. congruence.
Qed.

Lemma step_Some (env : globals) (e : event) (w w' : world) :
  step env e w = Some w' <->
  enabled env e w = true /\
  w' = exec (rerender env (st w)) (exec (handler env e (st w)) w).
Proof.
  unfold step. destruct (enabled env e w); split.
  - intros [= <-]. split; reflexivity.
  - intros [_ ->]. reflexivity.
  - discriminate.
  - intros [[=] _].
Qed.

(** ** The next render *)

Lemma deps_unchanged (s s' : state) :
  userId s' = userId s -> db s' = db s -> deps_changed s s' = false.
Proof.
  intros Hu Hd. unfold deps_changed. rewrite Hu, Hd.
  rewrite !option_eqb_refl; auto using String.eqb_refl.
Qed.

Lemma rerender_kept (env : globals) (old : state) (w : world) :
  userId (st w) = userId old -> db (st w) = db old ->
  exec (rerender env old) w = w.
Proof.
  intros Hu Hd. unfold rerender.
  rewrite exec_get, deps_unchanged by assumption. reflexivity.
Qed.

(** The next render closes the old subscription, then opens the new one
    or logs what [collection] threw and clears [loading]. *)
Lemma rerender_spec (env : globals) (old : state) (w : world) :
  let w' := exec (rerender env old) w in
  st w' = rerendered env old (st w) /\
  mounted w' = mounted w /\
  authListener w' = authListener w /\
  snapshotListener w' = resubscribed env old (st w) (snapshotListener w) /\
  trace w' = trace w ++ resubscription env old (st w) (snapshotListener w).
Proof.
  unfold rerender, rerendered, resubscribed, resubscription.
  rewrite exec_get.
  destruct (deps_changed old (st w));
    [|rewrite app_nil_r; repeat split; reflexivity].
  rewrite exec_seq. unfold listenEffect, listen, listenCleanup, exec.
  cbv beta.
  destruct (snapshotListener w) as [cur|] eqn:Hcur;
    destruct (is_some (db (st w))), (truthy_opt (userId (st w)));
    cbn [negb orb andb bind emit set_snapshotListener ret snd st trace
         mounted authListener snapshotListener];
    try (rewrite <- ?app_assoc, ?app_nil_r, ?Hcur; repeat split; reflexivity);
    destruct (blogsCollectionRef env (str (userId (st w))));
    cbn; rewrite <- ?app_assoc, ?app_nil_r, ?Hcur; repeat split; reflexivity.
Qed.

Lemma rerendered_fields (env : globals) (old s : state) :
  let s' := rerendered env old s in
  blogs s' = blogs s /\ title s' = title s /\
  description s' = description s /\ author s' = author s /\
  editingId s' = editingId s /\ userId s' = userId s /\ db s' = db s /\
  auth s' = auth s /\ (loading s = false -> loading s' = false).
Proof.
  unfold rerendered. destruct (deps_changed old s); [|repeat split; auto].
  destruct (listen env s) as [[error|ref]|]; repeat split; auto.
Qed.

(** With the store handle set, the subscription a render leaves is the
    one that belongs to the state. *)
Lemma listen_listening (env : globals) (s : state) :
  db s <> None ->
  match listen env s with
  | Some (inr ref) => Some ref
  | _ => None
  end = listening env s.
Proof.
  intros Hdb. unfold listen, listening.
  destruct (db s); [|congruence]. simpl.
  destruct (truthy_opt (userId s)); [|reflexivity].
  destruct (blogsCollectionRef env (str (userId s))); reflexivity.
Qed.

Lemma listening_loaded (env : globals) (s s' : state) :
  userId s' = userId s -> listening env s' = listening env s.
Proof. unfold listening. intros ->. reflexivity. Qed.

(** ** The guard and the reference of a submit *)

Lemma guard_passes (s : state) :
  filled s -> db s <> None -> truthy_opt (userId s) = true ->
  rejected_by_guard s = false.
Proof.
  intros (Ht & Hd & Ha) Hdb Hu. unfold rejected_by_guard.
  apply truthy_true in Ht, Hd, Ha. rewrite Ht, Hd, Ha, Hu.
  destruct (db s); [reflexivity | congruence].
Qed.

Lemma guard_rejects (s : state) :
  title s = "" \/ description s = "" \/ author s = "" \/
  truthy_opt (userId s) = false \/ db s = None ->
  rejected_by_guard s = true.
Proof.
  unfold rejected_by_guard.
  intros [H|[H|[H|[H|H]]]]; try apply truthy_false in H; rewrite H; simpl;
    rewrite ?orb_true_r; reflexivity.
Qed.

Lemma guard_false (s : state) :
  rejected_by_guard s = false ->
  filled s /\ db s <> None /\ truthy_opt (userId s) = true.
Proof.
  unfold rejected_by_guard, filled. intros H.
  repeat (apply orb_false_iff in H; destruct H as [H ?]).
  repeat match goal with
         | H : negb _ = false |- _ => apply negb_false_iff in H
         end.
  repeat split; try (apply truthy_true; assumption); try assumption.
  destruct (db s); [discriminate | discriminate].
Qed.

Lemma handleSubmit_rejected (env : globals) (r : settled) (w : world) :
  rejected_by_guard (st w) = true ->
  exec (handleSubmit env r) w =
  exec (emit PreventDefault ;; emit (Alert "Please fill out all fields.")) w.
Proof.
  intros H. unfold handleSubmit. rewrite !exec_seq, exec_get.
  change (st (exec (emit PreventDefault) w)) with (st w).
  unfold rejected_by_guard in H. rewrite H. reflexivity.
Qed.

(** Past the guard with a reference: the write is made. *)
Lemma handleSubmit_accepted (env : globals) (r : settled) (w : world)
    (ref : path) :
  rejected_by_guard (st w) = false ->
  submitRef env (st w) = inr ref ->
  exec (handleSubmit env r) w =
  exec (emit PreventDefault ;;
        emit (submit_call (st w) ref) ;;
        after_submit r) w.
Proof.
  intros H Href. unfold handleSubmit. rewrite !exec_seq, exec_get.
  change (st (exec (emit PreventDefault) w)) with (st w).
  unfold rejected_by_guard in H. rewrite H. cbv zeta.
  unfold submitRef in Href. unfold submit_call.
  destruct (truthy_opt (editingId (st w))); rewrite Href;
    unfold try_call, try_await, after_submit; rewrite exec_seq;
    reflexivity.
Qed.

(** Past the guard without one: what was thrown is logged, and that is
    all. *)
Lemma handleSubmit_refused (env : globals) (r : settled) (w : world)
    (error : string) :
  rejected_by_guard (st w) = false ->
  submitRef env (st w) = inl error ->
  exec (handleSubmit env r) w =
  exec (emit PreventDefault ;;
        emit (ConsoleError "Error adding/updating document:" (Some error)))
    w.
Proof.
  intros H Href. unfold handleSubmit. rewrite !exec_seq, exec_get.
  change (st (exec (emit PreventDefault) w)) with (st w).
  unfold rejected_by_guard in H. rewrite H. cbv zeta.
  unfold submitRef in Href.
  destruct (truthy_opt (editingId (st w))); rewrite Href; reflexivity.
Qed.

(** A submit that is not refused and passes the guard has its
    reference. *)
Lemma submit_enabled (env : globals) (r : settled) (w : world) :
  enabled env (Submit r) w = true ->
  rejected_by_guard (st w) = false ->
  exists ref, submitRef env (st w) = inr ref.
Proof.
  simpl. unfold submitThrows. intros Hen Hg. rewrite Hg in Hen.
  apply andb_true_iff in Hen. destruct Hen as [_ Hen].
  apply negb_true_iff in Hen. apply throws_false, Hen.
Qed.

Lemma submit_refused (env : globals) (w : world) :
  enabled env SubmitRefused w = true ->
  rejected_by_guard (st w) = false /\
  exists error, submitRef env (st w) = inl error.
Proof.
  simpl. unfold submitThrows. intros Hen.
  apply andb_true_iff in Hen. destruct Hen as [_ Hen].
  apply andb_true_iff in Hen. destruct Hen as [Hg Hen].
  split; [apply negb_true_iff, Hg | apply throws_true, Hen].
Qed.

(** What follows the write in the trace, and that it is no call. *)
Lemma after_write (call : effect) (r : settled) (w : world) :
  exists tail,
    trace (exec (emit PreventDefault ;; emit call ;; after_submit r) w) =
    trace w ++ PreventDefault :: call :: tail /\
    network_calls tail = [].
Proof.
  destruct r as [|error|].
  - exists []. simpl. rewrite <- app_assoc. split; reflexivity.
  - exists [ConsoleError "Error adding/updating document:" (Some error)].
    simpl. rewrite <- !app_assoc. split; reflexivity.
  - exists []. simpl. rewrite <- app_assoc. split; reflexivity.
Qed.

(** A submit keeps the session and the list, whatever it does. *)
Lemma handleSubmit_kept (env : globals) (r : settled) (w : world) :
  let w' := exec (handleSubmit env r) w in
  session_kept w w' /\ blogs (st w') = blogs (st w).
Proof.
  unfold session_kept.
  destruct (rejected_by_guard (st w)) eqn:Hg.
  - rewrite (handleSubmit_rejected env r w Hg). repeat split; auto.
  - destruct (submitRef env (st w)) as [error|ref] eqn:Href.
    + rewrite (handleSubmit_refused env r w error Hg Href).
      repeat split; auto.
    + rewrite (handleSubmit_accepted env r w ref Hg Href).
      destruct r; repeat split; auto.
Qed.

(** ** Deleting *)

Lemma handleDelete_guarded (env : globals) (id : string) (r : settled)
    (w : world) :
  is_some (db (st w)) && truthy_opt (userId (st w)) = false ->
  exec (handleDelete env id r) w = w.
Proof.
  intros H. unfold handleDelete. rewrite exec_get.
  destruct (is_some (db (st w))), (truthy_opt (userId (st w)));
    try discriminate; reflexivity.
Qed.

Lemma handleDelete_accepted (env : globals) (id : string) (r : settled)
    (w : world) (ref : path) :
  is_some (db (st w)) && truthy_opt (userId (st w)) = true ->
  deleteRef env (st w) id = inr ref ->
  exec (handleDelete env id r) w =
  exec (emit (DeleteDoc ref) ;;
        match r with
        | Rejected error =>
            emit (ConsoleError "Error deleting document:" (Some error))
        | _ => ret tt
        end) w.
Proof.
  intros H Href. unfold handleDelete. rewrite exec_get.
  apply andb_true_iff in H. destruct H as [Hd Hu]. rewrite Hd, Hu.
  unfold deleteRef in Href. cbn [negb orb]. rewrite Href.
  unfold try_call, try_await. destruct r; reflexivity.
Qed.

Lemma handleDelete_refused (env : globals) (id : string) (r : settled)
    (w : world) (error : string) :
  is_some (db (st w)) && truthy_opt (userId (st w)) = true ->
  deleteRef env (st w) id = inl error ->
  exec (handleDelete env id r) w =
  exec (emit (ConsoleError "Error deleting document:" (Some error))) w.
Proof.
  intros H Href. unfold handleDelete. rewrite exec_get.
  apply andb_true_iff in H. destruct H as [Hd Hu]. rewrite Hd, Hu.
  unfold deleteRef in Href. cbn [negb orb]. rewrite Href. reflexivity.
Qed.

Lemma handleDelete_kept (env : globals) (id : string) (r : settled)
    (w : world) :
  let w' := exec (handleDelete env id r) w in
  st w' = st w /\ mounted w' = mounted w /\
  authListener w' = authListener w /\
  snapshotListener w' = snapshotListener w.
Proof.
  destruct (is_some (db (st w)) && truthy_opt (userId (st w))) eqn:Hg.
  - destruct (deleteRef env (st w) id) as [error|ref] eqn:Href.
    + rewrite (handleDelete_refused env id r w error Hg Href).
      repeat split.
    + rewrite (handleDelete_accepted env id r w ref Hg Href).
      destruct r; repeat split.
  - rewrite (handleDelete_guarded env id r w Hg). repeat split.
Qed.

(** ** Handlers and the session *)

Lemma handler_session_kept (env : globals) (e : event) (w : world) :
  form_event e -> session_kept w (exec (handler env e (st w)) w).
Proof.
  assert (Hdel : forall id r,
            session_kept w (exec (handleDelete env id r) w)).
  { intros id r. destruct (handleDelete_kept env id r w) as (H1 & H2 & H3 & H4).
    unfold session_kept. rewrite H1, H2, H3, H4. repeat split; auto. }
  destruct e as [thrown|user r|docs|error|v|v|v|r|i|i r| | |i]; simpl;
    intros He; try contradiction;
    try (unfold session_kept; repeat split; auto; fail).
  - apply (handleSubmit_kept env r w).
  - destruct (nth_error _ _); unfold session_kept; simpl; repeat split; auto.
  - destruct (nth_error _ _); [apply Hdel|].
    unfold session_kept; repeat split; auto.
  - apply (handleSubmit_kept env Unsettled w).
  - destruct (nth_error _ _); [apply Hdel|].
    unfold session_kept; repeat split; auto.
Qed.

(** A form or subscription event is its handler: the next render has
    nothing to do. *)
Lemma step_form (env : globals) (e : event) (w w' : world) :
  form_event e -> step env e w = Some w' ->
  enabled env e w = true /\ w' = exec (handler env e (st w)) w.
Proof.
  intros He Hstep. apply step_Some in Hstep. destruct Hstep as [Hen ->].
  split; [exact Hen|].
  apply rerender_kept; apply (handler_session_kept env e w He).
Qed.

Lemma mount_spec (env : globals) (thrown : option string) (w : world) :
  userId (st w) = None -> db (st w) = None -> authListener w = false ->
  let w' := exec (handler env (Mount thrown) (st w)) w in
  userId (st w') = None /\ mounted w' = true /\
  snapshotListener w' = snapshotListener w /\
  (loading (st w) = false -> loading (st w') = false) /\
  (authListener w' = true -> db (st w') <> None) /\
  blogs (st w') = blogs (st w).
Proof.
  intros Hu Hd Ha. unfold handler, initEffect, listenEffect.
  rewrite Hd. simpl negb. simpl orb. cbv iota.
  destruct (length (firebaseConfig env) =? 0)%nat; [|destruct thrown];
    simpl; repeat split; auto; try discriminate; congruence.
Qed.

Lemma auth_user_spec (env : globals) (uid : string) (r : settled)
    (w : world) :
  let w' := exec (handler env (AuthStateChanged (Some uid) r) (st w)) w in
  userId (st w') = Some uid /\ loading (st w') = false /\
  db (st w') = db (st w) /\ mounted w' = mounted w /\
  authListener w' = authListener w /\
  snapshotListener w' = snapshotListener w /\
  trace w' = trace w ++ [ConsoleLog "Signed in as:" uid] /\
  blogs (st w') = blogs (st w).
Proof. repeat split; reflexivity. Qed.

Lemma auth_absent_spec (env : globals) (r : settled) (w : world) :
  session_kept w (exec (handler env (AuthStateChanged None r) (st w)) w).
Proof.
  unfold session_kept, handler, authCallback, try_await.
  destruct r; simpl; repeat split; auto.
Qed.

(** * The invariant *)

Lemma invariant_initial (env : globals) : invariant env initial_world.
Proof.
  unfold invariant; simpl. repeat split; intros; congruence.
Qed.

Lemma invariant_kept (env : globals) (w w' : world) :
  session_kept w w' -> invariant env w -> invariant env w'.
Proof.
  unfold session_kept, invariant.
  intros (Hu & Hd & Hl & Hm & Ha & Hs) (I0 & I1 & I2 & I3).
  rewrite (listening_loaded env (st w) (st w') Hu).
  rewrite Hu, Hd, Hm, Ha, Hs. intuition.
Qed.

Lemma listening_absent (env : globals) (s : state) :
  userId s = None -> listening env s = None /\ listen env s = None.
Proof.
  intros Hu. unfold listening, listen. rewrite Hu. simpl.
  rewrite andb_false_r. split; reflexivity.
Qed.

Lemma mount_invariant (env : globals) (thrown : option string) (w : world) :
  enabled env (Mount thrown) w = true -> invariant env w ->
  invariant env
    (exec (rerender env (st w)) (exec (handler env (Mount thrown) (st w)) w)).
Proof.
  intros Hen (I0 & I1 & I2 & I3).
  apply negb_true_iff in Hen. destruct (I0 Hen) as (Hu & Hd & Ha).
  destruct (mount_spec env thrown w Hu Hd Ha)
    as (M1 & M2 & M3 & M4 & M5 & _).
  remember (exec (handler env (Mount thrown) (st w)) w) as h eqn:Hh.
  destruct (rerender_spec env (st w) h) as (R1 & R2 & R3 & R4 & _).
  destruct (rerendered_fields env (st w) (st h))
    as (_ & _ & _ & _ & _ & F1 & F2 & _).
  remember (exec (rerender env (st w)) h) as w' eqn:Hw'.
  assert (Hu' : userId (st w') = None) by (rewrite R1, F1; exact M1).
  assert (Hd' : db (st w') = db (st h)) by (rewrite R1; exact F2).
  destruct (listening_absent env (st w') Hu') as (L1 & _).
  destruct (listening_absent env (st h) M1) as (_ & L2).
  destruct (listening_absent env (st w) Hu) as (L3 & _).
  unfold invariant. rewrite L1, R2, R3, R4, Hd', M2.
  split; [discriminate|]. split; [congruence|]. split; [exact M5|].
  unfold resubscribed. rewrite L2, M3, I3, L3.
  destruct (deps_changed _ _); reflexivity.
Qed.

Lemma auth_invariant (env : globals) (user : option string) (r : settled)
    (w : world) :
  enabled env (AuthStateChanged user r) w = true -> invariant env w ->
  invariant env
    (exec (rerender env (st w))
       (exec (handler env (AuthStateChanged user r) (st w)) w)).
Proof.
  intros Hen Hinv. destruct user as [uid|].
  - destruct Hinv as (I0 & I1 & I2 & I3). simpl in Hen.
    destruct (auth_user_spec env uid r w)
      as (A1 & A2 & A3 & A4 & A5 & A6 & _).
    destruct (rerender_spec env (st w)
                (exec (handler env (AuthStateChanged (Some uid) r) (st w)) w))
      as (R1 & R2 & R3 & R4 & _).
    destruct (rerendered_fields env (st w)
                (st (exec (handler env (AuthStateChanged (Some uid) r) (st w))
                       w)))
      as (_ & _ & _ & _ & _ & F1 & F2 & _ & F3).
    assert (Hdb : db (st w) <> None) by auto.
    unfold invariant.
    rewrite R2, R3, R4, A4, A5, A6.
    rewrite (listening_loaded env _ _ (eq_trans (f_equal userId R1) F1)).
    rewrite R1, F1, F2, A1, A3.
    split; [|split; [|split]].
    + intros Hm. destruct (I0 Hm) as (_ & _ & Hal). congruence.
    + intros _. split; [apply F3, A2 | exact Hdb].
    + intros _. exact Hdb.
    + unfold resubscribed.
      destruct (deps_changed (st w) _) eqn:Hdeps.
      * apply listen_listening. rewrite A3. exact Hdb.
      * unfold deps_changed in Hdeps. rewrite A1, A3 in Hdeps.
        rewrite option_eqb_refl in Hdeps by reflexivity. simpl in Hdeps.
        apply negb_false_iff, option_eqb_string in Hdeps.
        rewrite I3. apply listening_loaded. rewrite A1. exact Hdeps.
  - pose proof (auth_absent_spec env r w) as Hk.
    rewrite rerender_kept by apply Hk.
    apply (invariant_kept env w); assumption.
Qed.

Lemma step_invariant (env : globals) (e : event) (w w' : world) :
  invariant env w -> step env e w = Some w' -> invariant env w'.
Proof.
  intros Hinv Hstep. apply step_Some in Hstep. destruct Hstep as [Hen ->].
  assert (Hform :
            form_event e ->
            invariant env
              (exec (rerender env (st w)) (exec (handler env e (st w)) w))).
  { intros He. pose proof (handler_session_kept env e w He) as Hk.
    rewrite rerender_kept by apply Hk.
    apply (invariant_kept env w); assumption. }
  destruct e; try (apply Hform; exact I).
  - apply mount_invariant; assumption.
  - apply auth_invariant; assumption.
Qed.

Lemma reachable_invariant (env : globals) (w : world) :
  reachable env w -> invariant env w.
Proof.
  induction 1 as [|w w' e _ IH Hstep].
  - apply invariant_initial.
  - apply (step_invariant env e w w' IH Hstep).
Qed.

Lemma run_reachable (env : globals) (es : list event) (w w' : world) :
  reachable env w -> run env es w = Some w' -> reachable env w'.
Proof.
  revert w. induction es as [|e es IH]; simpl; intros w Hw Hrun.
  - injection Hrun as <-. exact Hw.
  - destruct (step env e w) as [w1|] eqn:Hstep; [|discriminate].
    apply (IH w1); [|exact Hrun].
    apply (reachable_step env w w1 e Hw Hstep).
Qed.

Lemma after_reachable (env : globals) (es : list event) (w : world) :
  run env es initial_world = Some w -> reachable env (after env es).
Proof.
  intros H. unfold after. rewrite H.
  apply (run_reachable env es initial_world w (reachable_initial env) H).
Qed.

(** With a user stored the component is mounted, [loading] is cleared
    and the store handle is set. *)
Lemma reachable_user (env : globals) (w : world) :
  reachable env w -> userId (st w) <> None ->
  mounted w = true /\ loading (st w) = false /\ db (st w) <> None /\
  snapshotListener w = listening env (st w).
Proof.
  intros Hr Hu. destruct (reachable_invariant env w Hr) as (I0 & I1 & _ & I3).
  destruct (I1 Hu) as (Hl & Hd).
  split; [|auto].
  destruct (mounted w); [reflexivity|].
  destruct (I0 eq_refl) as (H & _). congruence.
Qed.


(** * Snapshots *)

(** On posts that have a timestamp the comparator is the descending order
    of the numbers the timestamps convert to. *)
Lemma byTimestamp_by_key (l : list Blog.t) :
  Forall (fun b => Blog.timestamp b <> TsUndefined) l ->
  by_key_desc byTimestamp blogKey l.
Proof.
  intros Hall x y Hx Hy. rewrite Forall_forall in Hall.
  destruct (ToNumber_Num _ (Hall x Hx)) as (kx & Hkx).
  destruct (ToNumber_Num _ (Hall y Hy)) as (ky & Hky).
  unfold sorts_after, byTimestamp, blogKey, tsKey. rewrite Hkx, Hky.
  destruct (js_sub_sign kx ky) as (v & -> & Hv). exact Hv.
Qed.

Lemma sorted_apart {A : Type} (R : A -> A -> Prop) (l1 l2 l3 : list A)
    (a b : A) :
  StronglySorted R (l1 ++ a :: l2 ++ b :: l3) -> R a b.
Proof.
  induction l1 as [|x l1 IH]; simpl; intros H.
  - inversion H as [|? ? _ Hall]; subst.
    rewrite Forall_forall in Hall. apply Hall.
    apply in_or_app. right. left. reflexivity.
  - inversion H; subst. apply IH. assumption.
Qed.

Lemma resolved_key (b : Blog.t) : resolved b -> (0 < blogKey b)%Z.
Proof.
  intros (ts & Hts & Hs & Hn). unfold blogKey, tsKey. rewrite Hts.
  cbn [ToNumber].
  destruct (StringToNumber_positive (Timestamp.valueOf ts)) as (v & -> & Hv).
  - unfold Timestamp.valueOf, nano. lia.
  - exact Hv.
Qed.

Lemma pending_key (b : Blog.t) : pending b -> blogKey b = 0%Z.
Proof.
  unfold pending, blogKey, tsKey. intros ->. reflexivity.
Qed.

Lemma snapshot_blogs (env : globals) (docs : list Doc.t) (w w' : world) :
  step env (Snapshot docs) w = Some w' ->
  blogs (st w') = js_sort byTimestamp (map Blog.of_doc docs) /\
  loading (st w') = false /\
  trace w' = trace w /\
  snapshotListener w' = snapshotListener w.
Proof.
  intros Hstep.
  apply (step_form env (Snapshot docs) w w' I) in Hstep.
  destruct Hstep as [_ ->]. repeat split.
Qed.

Lemma snapshot_again (env : globals) (docs : list Doc.t) (w w' : world) :
  step env (Snapshot docs) w = Some w' ->
  step env (Snapshot docs) w' = Some w'.
Proof.
  intros Hstep.
  pose proof (step_form env (Snapshot docs) w w' I Hstep) as [Hen Hw].
  apply step_Some. split.
  - simpl in *.
    destruct (snapshot_blogs env docs w w' Hstep) as (_ & _ & _ & ->).
    exact Hen.
  - rewrite rerender_kept
      by apply (handler_session_kept env (Snapshot docs) w' I).
    rewrite Hw. destruct w as [[] ? ? ? ?]. reflexivity.
Qed.

Lemma has_timestamp_defined (docs : list Doc.t) :
  Forall has_timestamp docs ->
  Forall (fun b => Blog.timestamp b <> TsUndefined) (map Blog.of_doc docs).
Proof.
  intros Hts. rewrite Forall_forall in Hts |- *.
  intros b Hin. apply in_map_iff in Hin. destruct Hin as (d & <- & Hd).
  specialize (Hts d Hd). unfold has_timestamp in Hts. simpl.
  destruct (Data.timestamp (Doc.data d)); [contradiction| | |]; discriminate.
Qed.

(** The list after a snapshot: the snapshot's posts, by descending
    number of the timestamp, equal numbers in the snapshot's order. *)
Lemma snapshot_arrangement (env : globals) (docs : list Doc.t)
    (w w' : world) :
  Forall has_timestamp docs ->
  step env (Snapshot docs) w = Some w' ->
  Permutation (map Blog.of_doc docs) (blogs (st w')) /\
  StronglySorted (desc blogKey) (blogs (st w')) /\
  (forall k, filter (has_key blogKey k) (blogs (st w')) =
             filter (has_key blogKey k) (map Blog.of_doc docs)).
Proof.
  intros Hts Hstep.
  destruct (snapshot_blogs env docs w w' Hstep) as (Hb & _).
  assert (Hkey : by_key_desc byTimestamp blogKey (map Blog.of_doc docs)).
  { apply byTimestamp_by_key, has_timestamp_defined, Hts. }
  rewrite Hb. split; [apply js_sort_perm|].
  split; [apply js_sort_sorted, Hkey|].
  intros k. apply js_sort_stable, Hkey.
Qed.

Lemma millis_string_not_NA (ms : Z) : millis_string ms <> "N/A".
Proof.
  unfold millis_string.
  destruct (Z.to_int ms) as [d|d]; destruct d; discriminate.
Qed.

(** * The trace of a step *)

Lemma submit_call_plain (env : globals) (s : state) (ref : path) :
  truthy_opt (userId s) = true -> submitRef env s = inr ref ->
  plain env (submit_call s ref).
Proof.
  intros Hu Href. apply truthy_opt_str in Hu.
  unfold submit_call, submitRef in *. split.
  - destruct (truthy_opt (editingId s)); reflexivity.
  - intros Hseg. destruct (truthy_opt (editingId s)); simpl.
    + exists (str (userId s)), (str (editingId s)).
      split; [exact Hu | apply (doc_shape _ _ _ _ Hseg Href)].
    + exists (str (userId s)).
      split; [exact Hu | apply (collection_shape _ _ _ Hseg Href)].
Qed.

Lemma submit_call_network (s : state) (ref : path) :
  is_network_call (submit_call s ref) = true.
Proof. unfold submit_call. destruct (truthy_opt (editingId s)); reflexivity. Qed.

Lemma handleSubmit_adds (env : globals) (r : settled) (w : world) :
  exists pre,
    trace (exec (handleSubmit env r) w) = trace w ++ pre /\
    Forall (plain env) pre.
Proof.
  destruct (rejected_by_guard (st w)) eqn:Hg.
  - rewrite (handleSubmit_rejected env r w Hg).
    exists [PreventDefault; Alert "Please fill out all fields."].
    split; [simpl; rewrite <- app_assoc; reflexivity|].
    repeat constructor; intros _; exact I.
  - destruct (guard_false _ Hg) as (_ & _ & Hu).
    destruct (submitRef env (st w)) as [error|ref] eqn:Href.
    + rewrite (handleSubmit_refused env r w error Hg Href).
      eexists. split; [simpl; rewrite <- app_assoc; reflexivity|].
      repeat constructor; intros _; exact I.
    + rewrite (handleSubmit_accepted env r w ref Hg Href).
      pose proof (submit_call_plain env (st w) ref Hu Href) as Hcall.
      destruct r as [|error|]; eexists;
        (split; [simpl; rewrite <- ?app_assoc; reflexivity|]);
        repeat constructor; try apply Hcall; intros _; exact I.
Qed.

Lemma handleDelete_adds (env : globals) (id : string) (r : settled)
    (w : world) :
  exists pre,
    trace (exec (handleDelete env id r) w) = trace w ++ pre /\
    Forall (plain env) pre.
Proof.
  destruct (is_some (db (st w)) && truthy_opt (userId (st w))) eqn:Hg.
  - destruct (deleteRef env (st w) id) as [error|ref] eqn:Href.
    + rewrite (handleDelete_refused env id r w error Hg Href).
      eexists. split; [reflexivity|].
      repeat constructor; intros _; exact I.
    + rewrite (handleDelete_accepted env id r w ref Hg Href).
      apply andb_true_iff in Hg. destruct Hg as [_ Hu].
      assert (Hcall : plain env (DeleteDoc ref)).
      { split; [reflexivity|]. intros Hseg.
        exists (str (userId (st w))), id.
        split; [apply truthy_opt_str, Hu|].
        apply (doc_shape _ _ _ _ Hseg Href). }
      destruct r as [|error|]; eexists;
        (split; [simpl; rewrite <- ?app_assoc; reflexivity|]);
        repeat constructor; try apply Hcall; intros _; exact I.
  - rewrite (handleDelete_guarded env id r w Hg).
    exists []. split; [symmetry; apply app_nil_r | constructor].
Qed.

Lemma form_handler_adds (env : globals) (e : event) (w : world) :
  form_event e ->
  exists pre,
    trace (exec (handler env e (st w)) w) = trace w ++ pre /\
    Forall (plain env) pre.
Proof.
  assert (Hnil : exists pre : list effect,
            trace w = trace w ++ pre /\ Forall (plain env) pre).
  { exists []. split; [symmetry; apply app_nil_r | constructor]. }
  destruct e as [thrown|user r|docs|error|v|v|v|r|i|i r| | |i]; simpl;
    intros He; try contradiction; try exact Hnil.
  - eexists. split; [reflexivity|].
    repeat constructor.
  - apply handleSubmit_adds.
  - destruct (nth_error (blogs (st w)) i); exact Hnil.
  - destruct (nth_error (blogs (st w)) i) as [blog|]; [|exact Hnil].
    apply handleDelete_adds.
  - apply handleSubmit_adds.
  - destruct (nth_error (blogs (st w)) i) as [blog|]; [|exact Hnil].
    apply handleDelete_adds.
Qed.

Lemma mount_adds (env : globals) (thrown : option string) (w : world) :
  userId (st w) = None -> db (st w) = None ->
  exists pre,
    trace (exec (handler env (Mount thrown) (st w)) w) = trace w ++ pre /\
    Forall (plain env) pre.
Proof.
  intros Hu Hd. unfold handler, initEffect, listenEffect.
  rewrite Hd. simpl negb. simpl orb. cbv iota.
  destruct (length (firebaseConfig env) =? 0)%nat; [|destruct thrown];
    eexists; (split; [simpl; rewrite <- ?app_assoc; reflexivity|]);
    repeat constructor; intros _; exact I.
Qed.

Lemma auth_absent_adds (env : globals) (r : settled) (w : world) :
  trace (exec (handler env (AuthStateChanged None r) (st w)) w) =
  trace w ++
  (if truthy_opt (initialAuthToken env)
   then SignInWithCustomToken (str (initialAuthToken env))
   else SignInAnonymously) ::
  match r with
  | Rejected error => [ConsoleError "Authentication error:" (Some error)]
  | _ => []
  end.
Proof.
  unfold handler, authCallback, try_await.
  destruct r; simpl; rewrite <- ?app_assoc; reflexivity.
Qed.

(** Every handler leaves the subscription to the next render and adds
    plain effects only. *)
Lemma handler_adds (env : globals) (e : event) (w : world) :
  invariant env w -> enabled env e w = true ->
  snapshotListener (exec (handler env e (st w)) w) = snapshotListener w /\
  exists pre,
    trace (exec (handler env e (st w)) w) = trace w ++ pre /\
    Forall (plain env) pre.
Proof.
  intros (I0 & _) Hen.
  assert (Hform :
            form_event e ->
            snapshotListener (exec (handler env e (st w)) w) =
              snapshotListener w /\
            exists pre,
              trace (exec (handler env e (st w)) w) = trace w ++ pre /\
              Forall (plain env) pre).
  { intros He. split; [|apply (form_handler_adds env e w He)].
    apply (handler_session_kept env e w He). }
  destruct e as [thrown|[uid|] r|docs|error|v|v|v|r|i|i r| | |i];
    try (apply Hform; exact I).
  - simpl in Hen. apply negb_true_iff in Hen.
    destruct (I0 Hen) as (Hu & Hd & Ha).
    split; [apply (mount_spec env thrown w Hu Hd Ha)|].
    apply (mount_adds env thrown w Hu Hd).
  - split; [apply (auth_user_spec env uid r w)|].
    exists [ConsoleLog "Signed in as:" uid].
    split; [apply (auth_user_spec env uid r w)|].
    repeat constructor.
  - split; [apply (auth_absent_spec env r w)|].
    eexists. split; [apply auth_absent_adds|].
    destruct (truthy_opt (initialAuthToken env)), r; repeat constructor;
      intros _; exact I.
Qed.

(** A step adds what its handler adds, then what the next render does to
    the subscription. *)
Lemma step_adds (env : globals) (e : event) (w w' : world) :
  invariant env w -> step env e w = Some w' ->
  exists pre,
    trace w' =
      trace w ++ pre ++
      resubscription env (st w) (st (exec (handler env e (st w)) w))
        (snapshotListener w) /\
    snapshotListener w' =
      resubscribed env (st w) (st (exec (handler env e (st w)) w))
        (snapshotListener w) /\
    Forall (plain env) pre.
Proof.
  intros Hinv Hstep. apply step_Some in Hstep. destruct Hstep as [Hen ->].
  destruct (handler_adds env e w Hinv Hen) as (Hs & pre & Htr & Hpre).
  destruct (rerender_spec env (st w) (exec (handler env e (st w)) w))
    as (_ & _ & _ & R4 & R5).
  exists pre. split; [|split; [|exact Hpre]].
  - rewrite R5, Htr, Hs, <- app_assoc. reflexivity.
  - rewrite R4, Hs. reflexivity.
Qed.

(** * The store is only reached inside the users' collections *)

Lemma listening_scoped (env : globals) (s : state) (ref : path) :
  is_segment (appId env) = true ->
  listening env s = Some ref -> user_collection env ref.
Proof.
  intros Hseg. unfold listening.
  destruct (truthy_opt (userId s)) eqn:Hu; [|discriminate].
  destruct (blogsCollectionRef env (str (userId s))) as [error|p] eqn:Hc;
    [discriminate|].
  intros [= <-]. exists (str (userId s)).
  split; [apply truthy_opt_str, Hu|].
  apply (collection_shape _ _ _ Hseg Hc).
Qed.

Lemma listen_scoped (env : globals) (s : state) (ref : path) :
  is_segment (appId env) = true ->
  listen env s = Some (inr ref) -> user_collection env ref.
Proof.
  intros Hseg. unfold listen.
  destruct (is_some (db s)); [|discriminate].
  destruct (truthy_opt (userId s)) eqn:Hu; [|discriminate].
  simpl. intros [= Hc]. exists (str (userId s)).
  split; [apply truthy_opt_str, Hu|].
  apply (collection_shape _ _ _ Hseg Hc).
Qed.

Lemma resubscription_scoped (env : globals) (w : world) (s : state) :
  is_segment (appId env) = true -> invariant env w ->
  Forall (scoped env) (resubscription env (st w) s (snapshotListener w)).
Proof.
  intros Hseg (_ & _ & _ & I3). unfold resubscription.
  destruct (deps_changed (st w) s); [|constructor].
  apply Forall_app. split.
  - rewrite I3.
    destruct (listening env (st w)) as [ref|] eqn:Hs; constructor;
      [|constructor].
    apply (listening_scoped env (st w) ref Hseg Hs).
  - destruct (listen env s) as [[error|ref]|] eqn:Hl; repeat constructor.
    apply (listen_scoped env s ref Hseg Hl).
Qed.

(** * One subscription at a time *)

Lemma path_eqb_refl (p : path) : path_eqb p p = true.
Proof.
  unfold path_eqb. destruct (list_eq_dec string_dec p p); congruence.
Qed.

Lemma subscriptions_app (tr1 tr2 : list effect) (cur : option path) :
  subscriptions (tr1 ++ tr2) cur =
  match subscriptions tr1 cur with
  | Some cur' => subscriptions tr2 cur'
  | None => None
  end.
Proof.
  revert cur. induction tr1 as [|e tr1 IH]; intros cur; [reflexivity|].
  destruct e; simpl; try apply IH.
  - destruct cur; [reflexivity | apply IH].
  - destruct cur as [ref'|]; [|reflexivity].
    destruct (path_eqb ref ref'); [apply IH | reflexivity].
Qed.

Lemma subscriptions_quiet (tr : list effect) (cur : option path) :
  Forall (fun e => quiet e = true) tr -> subscriptions tr cur = Some cur.
Proof.
  induction 1 as [|e tr He _ IH]; [reflexivity|].
  destruct e; simpl in *; try exact IH; discriminate.
Qed.

Lemma subscriptions_resubscription (env : globals) (old s : state)
    (cur : option path) :
  subscriptions (resubscription env old s cur) cur =
  Some (resubscribed env old s cur).
Proof.
  unfold resubscription, resubscribed.
  destruct (deps_changed old s); [|reflexivity].
  destruct cur as [ref|]; simpl; rewrite ?path_eqb_refl;
    destruct (listen env s) as [[error|p]|]; reflexivity.
Qed.

Lemma reachable_subscriptions (env : globals) (w : world) :
  reachable env w -> subscriptions (trace w) None = Some (snapshotListener w).
Proof.
  induction 1 as [|w w' e Hr IH Hstep]; [reflexivity|].
  pose proof (reachable_invariant env w Hr) as Hinv.
  destruct (step_adds env e w w' Hinv Hstep) as (pre & Htr & Hs & Hpre).
  rewrite Htr, subscriptions_app, IH, subscriptions_app.
  rewrite subscriptions_quiet
    by (eapply Forall_impl; [|exact Hpre]; intros x Hx; apply Hx).
  rewrite subscriptions_resubscription, Hs. reflexivity.
Qed.


(** * Without the store *)

Lemma network_calls_app (tr1 tr2 : list effect) :
  network_calls (tr1 ++ tr2) = network_calls tr1 ++ network_calls tr2.
Proof. apply filter_app. Qed.

Lemma handler_blogs (env : globals) (e : event) (w : world) :
  (forall docs, e <> Snapshot docs) ->
  blogs (st (exec (handler env e (st w)) w)) = blogs (st w).
Proof.
  intros He.
  assert (Hdel : forall id r,
            blogs (st (exec (handleDelete env id r) w)) = blogs (st w)).
  { intros id r. destruct (handleDelete_kept env id r w) as (-> & _).
    reflexivity. }
  destruct e as [thrown|[uid|] r|docs|error|v|v|v|r|i|i r| | |i]; simpl;
    try reflexivity.
  - unfold initEffect, listenEffect.
    destruct (length (firebaseConfig env) =? 0)%nat; [|destruct thrown];
      destruct (negb (is_some (db (st w))) || negb (truthy_opt (userId (st w))));
      try reflexivity;
      destruct (blogsCollectionRef env (str (userId (st w)))); reflexivity.
  - unfold authCallback, try_await. destruct r; reflexivity.
  - destruct (He docs eq_refl).
  - apply handleSubmit_kept.
  - destruct (nth_error (blogs (st w)) i); reflexivity.
  - destruct (nth_error (blogs (st w)) i); [apply Hdel | reflexivity].
  - apply handleSubmit_kept.
  - destruct (nth_error (blogs (st w)) i); [apply Hdel | reflexivity].
Qed.

Lemma handler_loading (env : globals) (e : event) (w : world) :
  loading (st w) = false ->
  loading (st (exec (handler env e (st w)) w)) = false.
Proof.
  intros Hl.
  assert (Hform : form_event e ->
                  loading (st (exec (handler env e (st w)) w)) = false).
  { intros He.
    destruct (handler_session_kept env e w He) as (_ & _ & H & _).
    apply H, Hl. }
  destruct e as [thrown|[uid|] r|docs|error|v|v|v|r|i|i r| | |i];
    try (apply Hform; exact I).
  - simpl. unfold initEffect, listenEffect.
    destruct (length (firebaseConfig env) =? 0)%nat; [|destruct thrown];
      destruct (negb (is_some (db (st w))) || negb (truthy_opt (userId (st w))));
      simpl; auto;
      destruct (blogsCollectionRef env (str (userId (st w)))); simpl; auto.
  - reflexivity.
  - simpl. unfold authCallback, try_await. destruct r; simpl; auto.
Qed.

(** The next render leaves the list alone, and never sets [loading]. *)
Lemma step_blogs (env : globals) (e : event) (w w' : world) :
  step env e w = Some w' ->
  blogs (st w') = blogs (st (exec (handler env e (st w)) w)).
Proof.
  intros Hstep. apply step_Some in Hstep. destruct Hstep as [_ ->].
  destruct (rerender_spec env (st w) (exec (handler env e (st w)) w))
    as (-> & _).
  apply rerendered_fields.
Qed.

Lemma step_loading (env : globals) (e : event) (w w' : world) :
  loading (st w) = false -> step env e w = Some w' -> loading (st w') = false.
Proof.
  intros Hl Hstep. apply step_Some in Hstep. destruct Hstep as [_ ->].
  destruct (rerender_spec env (st w) (exec (handler env e (st w)) w))
    as (-> & _).
  apply rerendered_fields. apply handler_loading, Hl.
Qed.

Lemma without_store_handler (env : globals) (e : event) (w : world) :
  db (st w) = None -> form_event e ->
  (forall docs, e <> Snapshot docs) ->
  loading (st (exec (handler env e (st w)) w)) = loading (st w) /\
  network_calls (trace (exec (handler env e (st w)) w)) =
    network_calls (trace w).
Proof.
  intros Hd He Hs.
  assert (Hg : rejected_by_guard (st w) = true).
  { apply guard_rejects. auto. }
  assert (Hsub : forall r,
            loading (st (exec (handleSubmit env r) w)) = loading (st w) /\
            network_calls (trace (exec (handleSubmit env r) w)) =
              network_calls (trace w)).
  { intros r. rewrite (handleSubmit_rejected env r w Hg). simpl.
    split; [reflexivity|].
    rewrite <- app_assoc, network_calls_app. apply app_nil_r. }
  assert (Hdel : forall id r, exec (handleDelete env id r) w = w).
  { intros id r. apply handleDelete_guarded. rewrite Hd. reflexivity. }
  destruct e as [thrown|user r|docs|error|v|v|v|r|i|i r| | |i]; simpl;
    try contradiction; try (split; reflexivity); try apply Hsub.
  - destruct (Hs docs eq_refl).
  - split; [reflexivity|]. rewrite network_calls_app. apply app_nil_r.
  - destruct (nth_error (blogs (st w)) i); split; reflexivity.
  - destruct (nth_error (blogs (st w)) i); [|split; reflexivity].
    rewrite Hdel. split; reflexivity.
  - destruct (nth_error (blogs (st w)) i); [|split; reflexivity].
    rewrite Hdel. split; reflexivity.
Qed.

Lemma without_store_step (env : globals) (e : event) (w w' : world) :
  without_store w -> step env e w = Some w' ->
  without_store w' /\
  loading (st w') = loading (st w) /\
  blogs (st w') = blogs (st w) /\
  network_calls (trace w') = network_calls (trace w).
Proof.
  intros (Hm & Hd & Ha & Hu & Hs) Hstep.
  assert (Hen : enabled env e w = true)
    by (apply step_Some in Hstep; apply Hstep).
  assert (He : form_event e /\ forall docs, e <> Snapshot docs).
  { destruct e; simpl in Hen; try (split; [exact I | discriminate]).
    - rewrite Hm in Hen. discriminate.
    - rewrite Ha in Hen. discriminate.
    - rewrite Hs in Hen. discriminate. }
  destruct He as [He Hsnap].
  apply (step_form env e w w' He) in Hstep. destruct Hstep as [_ ->].
  destruct (handler_session_kept env e w He) as (K1 & K2 & _ & K4 & K5 & K6).
  destruct (without_store_handler env e w Hd He Hsnap) as (Hl & Hn).
  split; [|split; [exact Hl | split; [apply handler_blogs, Hsnap | exact Hn]]].
  unfold without_store. rewrite K1, K2, K4, K5, K6. auto.
Qed.

Lemma without_store_run (env : globals) (es : list event) (w w' : world) :
  without_store w -> run env es w = Some w' ->
  without_store w' /\
  loading (st w') = loading (st w) /\
  blogs (st w') = blogs (st w) /\
  network_calls (trace w') = network_calls (trace w).
Proof.
  revert w. induction es as [|e es IH]; simpl; intros w Hw Hrun.
  - injection Hrun as <-. auto.
  - destruct (step env e w) as [w1|] eqn:Hstep; [|discriminate].
    destruct (without_store_step env e w w1 Hw Hstep) as (H1 & Hl & Hb & Hn).
    destruct (IH w1 H1 Hrun) as (H' & Hl' & Hb' & Hn').
    split; [exact H'|]. rewrite Hl', Hb', Hn'. auto.
Qed.

Lemma run_cons (env : globals) (e : event) (es : list event) (w w' : world) :
  run env (e :: es) w = Some w' ->
  exists w1, step env e w = Some w1 /\ run env es w1 = Some w'.
Proof.
  simpl. destruct (step env e w) as [w1|]; [|discriminate].
  intros H. exists w1. auto.
Qed.

Lemma handler_extends (env : globals) (e : event) (w : world) :
  exists pre, trace (exec (handler env e (st w)) w) = trace w ++ pre.
Proof.
  assert (Hform :
            form_event e ->
            exists pre,
              trace (exec (handler env e (st w)) w) = trace w ++ pre).
  { intros He. destruct (form_handler_adds env e w He) as (pre & Hpre & _).
    exists pre. exact Hpre. }
  destruct e as [thrown|[uid|] r|docs|error|v|v|v|r|i|i r| | |i];
    try (apply Hform; exact I).
  - unfold handler, initEffect, listenEffect.
    destruct (length (firebaseConfig env) =? 0)%nat; [|destruct thrown];
      destruct (negb (is_some (db (st w)))
                || negb (truthy_opt (userId (st w))));
      try (eexists; simpl; rewrite <- ?app_assoc; reflexivity);
      destruct (blogsCollectionRef env (str (userId (st w))));
      eexists; simpl; rewrite <- ?app_assoc; reflexivity.
  - eexists. apply (auth_user_spec env uid r w).
  - eexists. apply auth_absent_adds.
Qed.

Lemma step_extends (env : globals) (e : event) (w w' : world) :
  step env e w = Some w' -> exists new, trace w' = trace w ++ new.
Proof.
  intros Hstep. apply step_Some in Hstep. destruct Hstep as [_ ->].
  destruct (rerender_spec env (st w) (exec (handler env e (st w)) w))
    as (_ & _ & _ & _ & ->).
  destruct (handler_extends env e w) as (pre & ->).
  eexists. rewrite <- app_assoc. reflexivity.
Qed.

Lemma run_extends (env : globals) (es : list event) (w w' : world) :
  run env es w = Some w' -> exists new, trace w' = trace w ++ new.
Proof.
  revert w. induction es as [|e es IH]; simpl; intros w Hrun.
  - injection Hrun as <-. exists []. symmetry. apply app_nil_r.
  - destruct (step env e w) as [w1|] eqn:Hstep; [|discriminate].
    destruct (IH w1 Hrun) as (new2 & ->).
    destruct (step_extends env e w w1 Hstep) as (new1 & ->).
    exists (new1 ++ new2). symmetry. apply app_assoc.
Qed.

(** * Submitting, as steps *)

(** With the reference at hand a submit is never refused: it issues its
    write and goes on as the write settles. *)
Lemma submit_steps (env : globals) (r : settled) (w : world) (ref : path) :
  mounted w = true -> rejected_by_guard (st w) = false ->
  submitRef env (st w) = inr ref ->
  step env SubmitRefused w = None /\
  step env (Submit r) w =
    Some (exec (emit PreventDefault ;;
                emit (submit_call (st w) ref) ;;
                after_submit r) w).
Proof.
  intros Hm Hg Href.
  assert (Ht : submitThrows env (st w) = false).
  { unfold submitThrows. rewrite Href. apply andb_false_r. }
  split.
  - unfold step. simpl. rewrite Ht, andb_false_r. reflexivity.
  - assert (Hs : step env (Submit r) w =
                 Some (exec (rerender env (st w))
                         (exec (handler env (Submit r) (st w)) w))).
    { unfold step. simpl enabled. rewrite Hm, Ht. reflexivity. }
    destruct (step_form env (Submit r) w _ I Hs) as [_ Heq].
    rewrite Hs, Heq. simpl handler.
    rewrite (handleSubmit_accepted env r w ref Hg Href). reflexivity.
Qed.

Lemma delete_steps (env : globals) (r : settled) (w : world) (i : nat)
    (blog : Blog.t) (ref : path) :
  mounted w = true -> loading (st w) = false ->
  nth_error (blogs (st w)) i = Some blog ->
  is_some (db (st w)) && truthy_opt (userId (st w)) = true ->
  deleteRef env (st w) (Blog.id blog) = inr ref ->
  step env (DeleteRefused i) w = None /\
  step env (Delete i r) w =
    Some (exec (emit (DeleteDoc ref) ;;
                match r with
                | Rejected error =>
                    emit (ConsoleError "Error deleting document:" (Some error))
                | _ => ret tt
                end) w).
Proof.
  intros Hm Hl Hnth Hg Href.
  assert (Ht : deleteThrows env (st w) (Blog.id blog) = false).
  { unfold deleteThrows. rewrite Href. apply andb_false_r. }
  split.
  - unfold step. simpl. rewrite Hnth, Ht, andb_false_r. reflexivity.
  - assert (Hs : step env (Delete i r) w =
                 Some (exec (rerender env (st w))
                         (exec (handler env (Delete i r) (st w)) w))).
    { unfold step. simpl enabled. rewrite Hm, Hl, Hnth, Ht. reflexivity. }
    destruct (step_form env (Delete i r) w _ I Hs) as [_ Heq].
    rewrite Hs, Heq. simpl handler. rewrite Hnth.
    rewrite (handleDelete_accepted env _ r w ref Hg Href). reflexivity.
Qed.

Lemma is_segment_truthy (s : string) : is_segment s = true -> truthy s = true.
Proof. unfold is_segment. intros H. apply andb_true_iff in H. apply H. Qed.

Lemma is_some_true {A : Type} (o : option A) : o <> None -> is_some o = true.
Proof. destruct o; [reflexivity | congruence]. Qed.

(** * The claims *)

(** C1, as the code has it: when a signed-in user submits the form with
    [editingId] set to a post's id and the three text fields filled in,
    and the application id, the user id and the post's id are one path
    segment each, the submit is not refused and issues one update call,
    addressed to that post's document; its payload is the three text
    fields together with a server-timestamp request for [timestamp], the
    same object a create sends, and the id is no field of it.  Nothing
    else goes to the backend, and when the call is fulfilled the draft is
    empty again, [editingId] included. *)
Theorem submit_update (env : globals) (w : world) (uid id : string) :
  reachable env w ->
  userId (st w) = Some uid -> editingId (st w) = Some id ->
  is_segment (appId env) = true -> is_segment uid = true ->
  is_segment id = true ->
  filled (st w) ->
  step env SubmitRefused w = None /\
  forall r, exists w' tail,
    step env (Submit r) w = Some w' /\
    trace w' =
      trace w ++
      PreventDefault ::
      UpdateDoc ["artifacts"; appId env; "users"; uid; "blog_posts"; id]
        [("title", FString (title (st w)));
         ("description", FString (description (st w)));
         ("author", FString (author (st w)));
         ("timestamp", FServerTimestamp)] :: tail /\
    network_calls tail = [] /\
    (r = Fulfilled -> draft (st w') = empty_draft).
Proof.
  intros Hr Hu He Happ Huid Hid Hf.
  assert (Hsome : userId (st w) <> None) by congruence.
  destruct (reachable_user env w Hr Hsome) as (Hm & _ & Hdb & _).
  assert (Ht : truthy_opt (userId (st w)) = true).
  { rewrite Hu. apply is_segment_truthy, Huid. }
  pose proof (guard_passes _ Hf Hdb Ht) as Hg.
  assert (Href : submitRef env (st w) =
                 inr ["artifacts"; appId env; "users"; uid; "blog_posts"; id]).
  { unfold submitRef. rewrite He, Hu. simpl truthy_opt.
    rewrite (is_segment_truthy id Hid). simpl str.
    apply doc_segments; assumption. }
  assert (Hcall : submit_call (st w)
                    ["artifacts"; appId env; "users"; uid; "blog_posts"; id] =
                  UpdateDoc
                    ["artifacts"; appId env; "users"; uid; "blog_posts"; id]
                    (blogData (st w))).
  { unfold submit_call. rewrite He. simpl truthy_opt.
    rewrite (is_segment_truthy id Hid). reflexivity. }
  split; [apply (submit_steps env Unsettled w _ Hm Hg Href)|].
  intros r. destruct (submit_steps env r w _ Hm Hg Href) as (_ & Hs).
  destruct (after_write
              (submit_call (st w)
                 ["artifacts"; appId env; "users"; uid; "blog_posts"; id]) r w)
    as (tail & Htr & Hnet).
  rewrite Hcall in Hs, Htr.
  eexists. exists tail. split; [exact Hs|].
  split; [exact Htr|]. split; [exact Hnet|].
  intros ->. reflexivity.
Qed.

Lemma submit_update_witness :
  step env1 SubmitRefused editing_docA = None /\
  forall r, exists w' tail,
    step env1 (Submit r) editing_docA = Some w' /\
    trace w' =
      trace editing_docA ++
      PreventDefault ::
      UpdateDoc ["artifacts"; appId env1; "users"; "u1"; "blog_posts"; "A"]
        [("title", FString (title (st editing_docA)));
         ("description", FString (description (st editing_docA)));
         ("author", FString (author (st editing_docA)));
         ("timestamp", FServerTimestamp)] :: tail /\
    network_calls tail = [] /\
    (r = Fulfilled -> draft (st w') = empty_draft).
Proof.
  apply (submit_update env1 editing_docA "u1" "A").
  - apply (after_reachable env1 edit_docA editing_docA).
    vm_compute. reflexivity.
  - reflexivity.
  - reflexivity.
  - reflexivity.
  - reflexivity.
  - reflexivity.
  - repeat split; discriminate.
Defined.

(** C1 as stated fails: the update issued for post [A] carries a
    [timestamp] field besides the three text fields. *)
Lemma update_carries_timestamp :
  exists ref data,
    step env1 (Submit Fulfilled) editing_docA = Some updated_docA /\
    In (UpdateDoc ref data) (trace updated_docA) /\
    In "timestamp" (keys data) /\
    keys data <> ["title"; "description"; "author"].
Proof.
  eexists. eexists. split; [vm_compute; reflexivity|].
  split.
  - unfold updated_docA, trace. do 5 right. left. reflexivity.
  - split; [simpl; auto|discriminate].
Qed.

(** C2, as the code has it: after a snapshot whose documents all have a
    timestamp field, the list holds exactly the snapshot's posts, in
    descending order of the number the timestamp converts to, posts of
    equal number in the snapshot's order.  The number is a double, so
    timestamps a few microseconds apart can be equal numbers.  A pending
    timestamp is [null] and counts as 0, so no pending post stands before
    a post with a resolved timestamp: the pending ones come last.  The
    page shows the list in this order, and the same snapshot delivered
    again changes nothing. *)
Theorem snapshot_sorted_by_number (env : globals)
    (toLocaleString : Z -> string) (w w' : world) (docs : list Doc.t) :
  Forall has_timestamp docs ->
  step env (Snapshot docs) w = Some w' ->
  Permutation (map Blog.of_doc docs) (blogs (st w')) /\
  StronglySorted (desc blogKey) (blogs (st w')) /\
  (forall k, filter (has_key blogKey k) (blogs (st w')) =
             filter (has_key blogKey k) (map Blog.of_doc docs)) /\
  (forall l1 a l2 b l3,
      blogs (st w') = l1 ++ a :: l2 ++ b :: l3 ->
      pending a -> ~ resolved b) /\
  map fst (visible toLocaleString (st w')) = blogs (st w') /\
  step env (Snapshot docs) w' = Some w'.
Proof.
  intros Hts Hstep.
  destruct (snapshot_arrangement env docs w w' Hts Hstep)
    as (Hperm & Hsorted & Hstable).
  destruct (snapshot_blogs env docs w w' Hstep) as (_ & Hl & _).
  split; [exact Hperm|]. split; [exact Hsorted|]. split; [exact Hstable|].
  split.
  - intros l1 a l2 b l3 Heq Ha Hb. rewrite Heq in Hsorted.
    apply sorted_apart in Hsorted. unfold desc in Hsorted.
    apply pending_key in Ha. apply resolved_key in Hb. lia.
  - split; [|apply (snapshot_again env docs w w' Hstep)].
    unfold visible. rewrite Hl, map_map. simpl. apply map_id.
Qed.

Lemma snapshot_sorted_witness :
  Permutation (map Blog.of_doc [docB; docA]) (blogs (st listed_BA)) /\
  StronglySorted (desc blogKey) (blogs (st listed_BA)) /\
  (forall k, filter (has_key blogKey k) (blogs (st listed_BA)) =
             filter (has_key blogKey k) (map Blog.of_doc [docB; docA])) /\
  (forall l1 a l2 b l3,
      blogs (st listed_BA) = l1 ++ a :: l2 ++ b :: l3 ->
      pending a -> ~ resolved b) /\
  map fst (visible millis_string (st listed_BA)) = blogs (st listed_BA) /\
  step env1 (Snapshot [docB; docA]) listed_BA = Some listed_BA.
Proof.
  apply (snapshot_sorted_by_number env1 millis_string signed_in listed_BA
           [docB; docA]).
  - repeat constructor; simpl; unfold Timestamp.MIN_SECONDS, nano; lia.
  - vm_compute. reflexivity.
Defined.

(** C2 as stated fails: a snapshot lists the pending post [B] before the
    resolved post [A]; the list then shows [A] first and [B] last, which
    is not the order with unresolved entries first. *)
Lemma pending_post_sorted_last :
  step env1 (Snapshot [docB; docA]) signed_in = Some listed_BA /\
  blogs (st listed_BA) = [Blog.of_doc docA; Blog.of_doc docB] /\
  pending (Blog.of_doc docB) /\
  ~ spec_ordered (blogs (st listed_BA)).
Proof.
  split; [vm_compute; reflexivity|].
  split; [reflexivity|]. split; [reflexivity|].
  intros H. inversion H as [|? ? _ Hall]; subst.
  inversion Hall as [|? ? Hab _]; subst.
  exact Hab.
Qed.

(** C3: when the subscription reports an error, the error is logged,
    [loading] is false afterwards, and the list is the one from before.
    The callback itself only logs; [loading] is false because a
    subscription exists only once a user id is stored, which clears it. *)
Theorem subscription_error_keeps_list (env : globals) (w w' : world)
    (error : string) :
  reachable env w ->
  step env (SnapshotError error) w = Some w' ->
  trace w' = trace w ++ [ConsoleError "Failed to fetch blogs:" (Some error)] /\
  loading (st w') = false /\
  blogs (st w') = blogs (st w).
Proof.
  intros Hr Hstep.
  apply (step_form env (SnapshotError error) w w' I) in Hstep.
  destruct Hstep as [Hen ->]. simpl in Hen.
  destruct (reachable_invariant env w Hr) as (_ & I1 & _ & I3).
  split; [reflexivity|]. split; [|reflexivity].
  change (loading (st w) = false).
  destruct (userId (st w)) as [uid|] eqn:Hu.
  - apply I1. discriminate.
  - rewrite I3 in Hen. unfold listening in Hen. rewrite Hu in Hen.
    discriminate Hen.
Qed.

Lemma subscription_error_witness :
  trace after_error =
    trace listed_BA ++
    [ConsoleError "Failed to fetch blogs:" (Some "unavailable")] /\
  loading (st after_error) = false /\
  blogs (st after_error) = blogs (st listed_BA).
Proof.
  apply (subscription_error_keeps_list env1 listed_BA after_error
           "unavailable").
  - apply (after_reachable env1 show_BA listed_BA). vm_compute. reflexivity.
  - vm_compute. reflexivity.
Defined.



(** C5: when one of the three text fields is empty, or no usable user id
    is stored (or the store handle is missing), submitting issues no call
    to the backend: the user is alerted, and the state is as before. *)
Theorem submit_validation (env : globals) (w w' : world) (r : settled) :
  title (st w) = "" \/ description (st w) = "" \/ author (st w) = "" \/
  truthy_opt (userId (st w)) = false \/ db (st w) = None ->
  step env (Submit r) w = Some w' ->
  trace w' = trace w ++ [PreventDefault; Alert "Please fill out all fields."] /\
  network_calls (trace w') = network_calls (trace w) /\
  st w' = st w.
Proof.
  intros Hbad Hstep.
  apply (step_form env (Submit r) w w' I) in Hstep. destruct Hstep as [_ ->].
  simpl handler.
  rewrite (handleSubmit_rejected env r w (guard_rejects _ Hbad)).
  simpl. rewrite <- app_assoc. split; [reflexivity|].
  split; [|reflexivity].
  unfold network_calls. rewrite filter_app. simpl. apply app_nil_r.
Qed.

Lemma submit_validation_witness :
  trace no_author_submitted =
    trace no_author ++ [PreventDefault; Alert "Please fill out all fields."] /\
  network_calls (trace no_author_submitted) = network_calls (trace no_author) /\
  st no_author_submitted = st no_author.
Proof.
  apply (submit_validation env1 no_author no_author_submitted Fulfilled).
  - right. right. left. reflexivity.
  - vm_compute. reflexivity.
Defined.

(** C6: when the create or update call of a submit is rejected, the error
    is logged and the draft, with the rest of the state, is exactly as it
    was before the call. *)
Theorem failed_submit_keeps_draft (env : globals) (w w' : world)
    (error : string) :
  filled (st w) -> db (st w) <> None -> truthy_opt (userId (st w)) = true ->
  step env (Submit (Rejected error)) w = Some w' ->
  (exists ref data,
      trace w' =
        trace w ++
        [PreventDefault; AddDoc ref data;
         ConsoleError "Error adding/updating document:" (Some error)] \/
      trace w' =
        trace w ++
        [PreventDefault; UpdateDoc ref data;
         ConsoleError "Error adding/updating document:" (Some error)]) /\
  draft (st w') = draft (st w) /\
  st w' = st w.
Proof.
  intros Hf Hdb Hu Hstep.
  apply (step_form env (Submit (Rejected error)) w w' I) in Hstep.
  destruct Hstep as [Hen ->]. simpl handler.
  pose proof (guard_passes _ Hf Hdb Hu) as Hg.
  destruct (submit_enabled env _ w Hen Hg) as (ref & Href).
  rewrite (handleSubmit_accepted env _ w ref Hg Href).
  unfold submit_call.
  split; [|split; reflexivity].
  destruct (truthy_opt (editingId (st w))); eexists; eexists;
    [right | left]; simpl; rewrite <- !app_assoc; reflexivity.
Qed.

Lemma failed_submit_witness :
  (exists ref data,
      trace hello_rejected =
        trace hello_filled ++
        [PreventDefault; AddDoc ref data;
         ConsoleError "Error adding/updating document:" (Some "unavailable")] \/
      trace hello_rejected =
        trace hello_filled ++
        [PreventDefault; UpdateDoc ref data;
         ConsoleError "Error adding/updating document:"
           (Some "unavailable")]) /\
  draft (st hello_rejected) = draft (st hello_filled) /\
  st hello_rejected = st hello_filled.
Proof.
  apply (failed_submit_keeps_draft env1 hello_filled hello_rejected
           "unavailable").
  - repeat split; discriminate.
  - discriminate.
  - reflexivity.
  - vm_compute. reflexivity.
Defined.

(** C7: for every post, [handleEdit] followed at once by [resetForm]
    (Cancel) leaves the draft empty, as it was at the start; the list and
    the trace are untouched.  The same holds of the two clicks as events. *)
Theorem edit_then_cancel (blog : Blog.t) (w : world) :
  draft (st (exec (handleEdit blog ;; resetForm) w)) = empty_draft /\
  draft initial_state = empty_draft /\
  blogs (st (exec (handleEdit blog ;; resetForm) w)) = blogs (st w) /\
  trace (exec (handleEdit blog ;; resetForm) w) = trace w /\
  (forall env i w1 w2,
      step env (Edit i) w = Some w1 -> step env Cancel w1 = Some w2 ->
      draft (st w2) = empty_draft).
Proof.
  split; [reflexivity|]. split; [reflexivity|].
  split; [reflexivity|]. split; [reflexivity|].
  intros env i w1 w2 _ Hcancel.
  apply (step_form env Cancel w1 w2 I) in Hcancel.
  destruct Hcancel as [_ ->]. reflexivity.
Qed.



(** C9, as the code has it: a resolved server timestamp is shown as the
    locale string of its date, the instant in whole milliseconds that
    [toDate()] makes of it, and every [Timestamp] the constructor accepts
    has such a date; a non-zero number is shown as the locale string of
    the date of that many milliseconds; a timestamp that is pending
    ([null]) or missing is shown as "N/A", so a pending post is listed
    with "N/A".  Submitting captures no clock value: the write it issues
    asks the server for the timestamp, and it leaves the list as it
    is. *)
Theorem formatDate_rendering (toLocaleString : Z -> string) :
  (forall ts,
      formatDate toLocaleString (TsObject ts) =
      match Timestamp.toDate ts with
      | Some ms => toLocaleString ms
      | None => "Invalid Date"
      end) /\
  (forall ts,
      Timestamp.valid ts ->
      exists ms,
        Timestamp.toDate ts = Some ms /\
        formatDate toLocaleString (TsObject ts) = toLocaleString ms) /\
  (forall ms, ms <> 0%Z ->
      formatDate toLocaleString (TsNumber ms) =
      match newDate (of_Z ms) with
      | Some ms' => toLocaleString ms'
      | None => "Invalid Date"
      end) /\
  formatDate toLocaleString TsNull = "N/A" /\
  formatDate toLocaleString TsUndefined = "N/A" /\
  (forall s blog,
      loading s = false -> In blog (blogs s) -> pending blog ->
      In (blog, "N/A") (visible toLocaleString s)) /\
  (forall env r w w',
      filled (st w) -> db (st w) <> None ->
      truthy_opt (userId (st w)) = true ->
      step env (Submit r) w = Some w' ->
      exists ref data tail,
        (trace w' = trace w ++ PreventDefault :: AddDoc ref data :: tail \/
         trace w' = trace w ++ PreventDefault :: UpdateDoc ref data :: tail) /\
        data =
          [("title", FString (title (st w)));
           ("description", FString (description (st w)));
           ("author", FString (author (st w)));
           ("timestamp", FServerTimestamp)] /\
        network_calls tail = []) /\
  (forall env r w,
      blogs (st (exec (handleSubmit env r) w)) = blogs (st w)).
Proof.
  split; [reflexivity|]. split; [|split].
  - intros ts Hts. destruct (toDate_valid ts Hts) as (ms & Hms).
    exists ms. split; [exact Hms|].
    unfold formatDate. simpl. rewrite Hms. reflexivity.
  - intros ms Hms. unfold formatDate. simpl.
    apply Z.eqb_neq in Hms. rewrite Hms. reflexivity.
  - split; [reflexivity|]. split; [reflexivity|]. split; [|split].
    + intros s blog Hl Hin Hp. unfold visible. rewrite Hl.
      apply in_map_iff. exists blog. split; [|exact Hin].
      unfold pending in Hp. rewrite Hp. reflexivity.
    + intros env r w w' Hf Hdb Hu Hstep.
      apply (step_form env (Submit r) w w' I) in Hstep.
      destruct Hstep as [Hen ->]. simpl handler.
      pose proof (guard_passes _ Hf Hdb Hu) as Hg.
      destruct (submit_enabled env _ w Hen Hg) as (ref & Href).
      rewrite (handleSubmit_accepted env _ w ref Hg Href).
      destruct (after_write (submit_call (st w) ref) r w)
        as (tail & Htr & Hnet).
      exists ref, (blogData (st w)), tail.
      split; [|split; [reflexivity | exact Hnet]].
      unfold submit_call in Htr |- *.
      destruct (truthy_opt (editingId (st w))); [right | left]; exact Htr.
    + intros env r w. apply handleSubmit_kept.
Qed.

(** C9 as stated fails: the pending post [B] is listed with "N/A", which
    is the formatted value of no instant. *)
Lemma pending_post_rendered_NA :
  visible millis_string (st listed_BA) =
    [(Blog.of_doc docA, "1700000000000"); (Blog.of_doc docB, "N/A")] /\
  pending (Blog.of_doc docB) /\
  (forall now, millis_string now <> "N/A").
Proof.
  split; [vm_compute; reflexivity|].
  split; [reflexivity|].
  apply millis_string_not_NA.
Qed.

(** C10: without a usable user id, or without the store handle,
    [handleDelete] does nothing at all: no call, no log entry, the same
    state. *)
Theorem delete_without_user (env : globals) (id : string) (r : settled)
    (w : world) :
  truthy_opt (userId (st w)) = false \/ db (st w) = None ->
  exec (handleDelete env id r) w = w.
Proof.
  intros H. unfold handleDelete. rewrite exec_get.
  destruct H as [-> | ->]; simpl; rewrite ?orb_true_r; reflexivity.
Qed.

Lemma delete_without_user_witness :
  exec (handleDelete env1 "A" Fulfilled) initial_world = initial_world.
Proof.
  apply (delete_without_user env1 "A" Fulfilled initial_world).
  left. reflexivity.
Defined.

(** * Further properties *)

(** X1: the list shown after a snapshot is the only arrangement of the
    snapshot's posts that is in descending order of the number the
    timestamp converts to and keeps posts of equal number in the
    snapshot's order: the result does not depend on how a stable sort is
    implemented. *)
Theorem snapshot_order_unique (env : globals) (w w' : world)
    (docs : list Doc.t) (l : list Blog.t) :
  Forall has_timestamp docs ->
  step env (Snapshot docs) w = Some w' ->
  StronglySorted (desc blogKey) l ->
  (forall k, filter (has_key blogKey k) l =
             filter (has_key blogKey k) (map Blog.of_doc docs)) ->
  l = blogs (st w').
Proof.
  intros Hts Hstep Hsorted Hstable.
  destruct (snapshot_arrangement env docs w w' Hts Hstep) as (_ & Hs & Hf).
  apply (stable_sorted_unique blogKey); [exact Hsorted | exact Hs |].
  intros k. rewrite Hf. apply Hstable.
Qed.

Lemma snapshot_order_unique_witness :
  [Blog.of_doc docA; Blog.of_doc docB] = blogs (st listed_BA).
Proof.
  apply (snapshot_order_unique env1 signed_in listed_BA [docB; docA]).
  - repeat constructor; simpl; unfold Timestamp.MIN_SECONDS, nano; lia.
  - vm_compute. reflexivity.
  - repeat constructor; unfold desc; vm_compute; discriminate.
  - intros k. cbn [map filter]. unfold has_key.
    destruct (Z.eqb_spec (blogKey (Blog.of_doc docA)) k) as [Ha|Ha],
             (Z.eqb_spec (blogKey (Blog.of_doc docB)) k) as [Hb|Hb];
      try reflexivity.
    rewrite <- Hb in Ha. vm_compute in Ha. discriminate Ha.
Defined.

(** X2: in every state the component reaches, a stored user id comes
    with [loading] cleared and the store handle set, and the subscription
    is live exactly while the user id is usable and [collection] accepts
    the path built from it, on the collection it returns; with an
    application id and a user id of one path segment each, that is the
    collection artifacts / application id / users / user id /
    blog_posts. *)
Theorem session_invariant (env : globals) (w : world) :
  reachable env w ->
  (userId (st w) <> None -> loading (st w) = false /\ db (st w) <> None) /\
  snapshotListener w =
    (if truthy_opt (userId (st w)) then
       match
         collection ["artifacts"; appId env; "users"; str (userId (st w));
                     "blog_posts"]
       with
       | inr ref => Some ref
       | inl _ => None
       end
     else None) /\
  (forall uid,
      userId (st w) = Some uid ->
      is_segment (appId env) = true -> is_segment uid = true ->
      snapshotListener w =
        Some ["artifacts"; appId env; "users"; uid; "blog_posts"]).
Proof.
  intros Hr. destruct (reachable_invariant env w Hr) as (_ & I1 & _ & I3).
  split; [exact I1|]. split; [exact I3|].
  intros uid Hu Happ Huid. rewrite I3. unfold listening, blogsCollectionRef.
  rewrite Hu. simpl. rewrite (is_segment_truthy uid Huid).
  rewrite collection_segments by assumption. reflexivity.
Qed.

Lemma session_invariant_witness :
  (userId (st stale_listed) <> None ->
   loading (st stale_listed) = false /\ db (st stale_listed) <> None) /\
  snapshotListener stale_listed =
    (if truthy_opt (userId (st stale_listed)) then
       match
         collection ["artifacts"; appId env1; "users";
                     str (userId (st stale_listed)); "blog_posts"]
       with
       | inr ref => Some ref
       | inl _ => None
       end
     else None) /\
  (forall uid,
      userId (st stale_listed) = Some uid ->
      is_segment (appId env1) = true -> is_segment uid = true ->
      snapshotListener stale_listed =
        Some ["artifacts"; appId env1; "users"; uid; "blog_posts"]).
Proof.
  apply (session_invariant env1 stale_listed).
  apply (after_reachable env1 stale_list stale_listed). vm_compute. reflexivity.
Defined.

(** X3: with a user signed in, the application id, the user id and the
    post's id being one path segment each, deleting a listed post is not
    refused and issues exactly one delete call, on that post's document;
    a rejection is logged, and in every case the state, the list
    included, is as before. *)
Theorem delete_signed_in (env : globals) (w : world) (i : nat)
    (blog : Blog.t) (uid : string) :
  reachable env w -> userId (st w) = Some uid ->
  nth_error (blogs (st w)) i = Some blog ->
  is_segment (appId env) = true -> is_segment uid = true ->
  is_segment (Blog.id blog) = true ->
  step env (DeleteRefused i) w = None /\
  forall r, exists w',
    step env (Delete i r) w = Some w' /\
    trace w' =
      trace w ++
      DeleteDoc
        ["artifacts"; appId env; "users"; uid; "blog_posts"; Blog.id blog] ::
      match r with
      | Rejected error =>
          [ConsoleError "Error deleting document:" (Some error)]
      | _ => []
      end /\
    st w' = st w.
Proof.
  intros Hr Hu Hnth Happ Huid Hid.
  assert (Hsome : userId (st w) <> None) by congruence.
  destruct (reachable_user env w Hr Hsome) as (Hm & Hl & Hdb & _).
  assert (Hg : is_some (db (st w)) && truthy_opt (userId (st w)) = true).
  { rewrite (is_some_true _ Hdb), Hu. apply is_segment_truthy, Huid. }
  assert (Href : deleteRef env (st w) (Blog.id blog) =
                 inr ["artifacts"; appId env; "users"; uid; "blog_posts";
                      Blog.id blog]).
  { unfold deleteRef. rewrite Hu. apply doc_segments; assumption. }
  split; [apply (delete_steps env Unsettled w i blog _ Hm Hl Hnth Hg Href)|].
  intros r.
  destruct (delete_steps env r w i blog _ Hm Hl Hnth Hg Href) as (_ & Hs).
  eexists. split; [exact Hs|].
  destruct r; simpl; rewrite <- ?app_assoc; split; reflexivity.
Qed.

Lemma delete_signed_in_witness :
  step env1 (DeleteRefused 0) listed_BA = None /\
  forall r, exists w',
    step env1 (Delete 0 r) listed_BA = Some w' /\
    trace w' =
      trace listed_BA ++
      DeleteDoc
        ["artifacts"; appId env1; "users"; "u1"; "blog_posts";
         Blog.id (Blog.of_doc docA)] ::
      match r with
      | Rejected error =>
          [ConsoleError "Error deleting document:" (Some error)]
      | _ => []
      end /\
    st w' = st listed_BA.
Proof.
  apply (delete_signed_in env1 listed_BA 0 (Blog.of_doc docA) "u1").
  - apply (after_reachable env1 show_BA listed_BA). vm_compute. reflexivity.
  - reflexivity.
  - reflexivity.
  - reflexivity.
  - reflexivity.
  - reflexivity.
Defined.

(** What the next render does after the authentication state reported
    user [uid], when the stored user was another one or none. *)
Lemma sign_in_step (env : globals) (w w' : world) (uid : string)
    (r : settled) :
  reachable env w -> userId (st w) <> Some uid -> uid <> "" ->
  step env (AuthStateChanged (Some uid) r) w = Some w' ->
  trace w' =
    trace w ++
    ConsoleLog "Signed in as:" uid ::
    match snapshotListener w with
    | Some ref => [Unsubscribe ref]
    | None => []
    end ++
    [match blogsCollectionRef env uid with
     | inr ref => OnSnapshot ref
     | inl error => ConsoleError "Firestore snapshot error:" (Some error)
     end] /\
  snapshotListener w' =
    match blogsCollectionRef env uid with
    | inr ref => Some ref
    | inl _ => None
    end /\
  userId (st w') = Some uid /\
  loading (st w') = false /\
  blogs (st w') = blogs (st w).
Proof.
  intros Hr Hu Hne Hstep.
  destruct (reachable_invariant env w Hr) as (_ & _ & I2 & _).
  apply step_Some in Hstep. destruct Hstep as [Hen ->].
  simpl in Hen. specialize (I2 Hen).
  destruct (auth_user_spec env uid r w)
    as (A1 & A2 & A3 & _ & _ & A6 & A7 & A8).
  remember (exec (handler env (AuthStateChanged (Some uid) r) (st w)) w)
    as h eqn:Hh.
  destruct (rerender_spec env (st w) h) as (R1 & _ & _ & R4 & R5).
  destruct (rerendered_fields env (st w) (st h))
    as (F0 & _ & _ & _ & _ & F1 & _ & _ & F3).
  assert (Hchanged : deps_changed (st w) (st h) = true).
  { unfold deps_changed. rewrite A1, A3.
    rewrite option_eqb_refl by reflexivity. simpl.
    apply negb_true_iff. destruct (userId (st w)) as [old|]; [|reflexivity].
    simpl. apply String.eqb_neq. congruence. }
  assert (Hlisten : listen env (st h) = Some (blogsCollectionRef env uid)).
  { unfold listen. rewrite A1, A3, (is_some_true _ I2). simpl.
    apply truthy_true in Hne. rewrite Hne. reflexivity. }
  split; [|split; [|split; [|split]]].
  - rewrite R5, A7, A6. unfold resubscription. rewrite Hchanged, Hlisten.
    rewrite <- app_assoc. simpl.
    destruct (blogsCollectionRef env uid); reflexivity.
  - rewrite R4. unfold resubscribed. rewrite Hchanged, Hlisten.
    destruct (blogsCollectionRef env uid); reflexivity.
  - rewrite R1, F1. exact A1.
  - rewrite R1. apply F3, A2.
  - rewrite R1, F0. exact A8.
Qed.

(** X4: when another user signs in, the application id and both user ids
    being one path segment each, the subscription of the previous user is
    closed before the one of the new user is opened, and the live
    subscription is then the new user's. *)
Theorem user_switch_resubscribes (env : globals) (w w' : world)
    (old new : string) (r : settled) :
  reachable env w -> userId (st w) = Some old ->
  is_segment (appId env) = true -> is_segment old = true ->
  is_segment new = true -> new <> old ->
  step env (AuthStateChanged (Some new) r) w = Some w' ->
  trace w' =
    trace w ++
    [ConsoleLog "Signed in as:" new;
     Unsubscribe ["artifacts"; appId env; "users"; old; "blog_posts"];
     OnSnapshot ["artifacts"; appId env; "users"; new; "blog_posts"]] /\
  snapshotListener w' =
    Some ["artifacts"; appId env; "users"; new; "blog_posts"].
Proof.
  intros Hr Hu Happ Hold Hnew Hdiff Hstep.
  assert (Hne : new <> "") by (apply truthy_true, is_segment_truthy, Hnew).
  assert (Hother : userId (st w) <> Some new) by congruence.
  destruct (sign_in_step env w w' new r Hr Hother Hne Hstep)
    as (Htr & Hs & _).
  assert (Hl : snapshotListener w =
               Some ["artifacts"; appId env; "users"; old; "blog_posts"]).
  { destruct (reachable_invariant env w Hr) as (_ & _ & _ & I3).
    rewrite I3. unfold listening, blogsCollectionRef. rewrite Hu. simpl.
    rewrite (is_segment_truthy old Hold).
    rewrite collection_segments by assumption. reflexivity. }
  unfold blogsCollectionRef in Htr, Hs.
  rewrite collection_segments in Htr, Hs by assumption.
  rewrite Hl in Htr. split; [exact Htr | exact Hs].
Qed.

Lemma user_switch_witness :
  trace switched_to_u2 =
    trace listed_BA ++
    [ConsoleLog "Signed in as:" "u2";
     Unsubscribe ["artifacts"; appId env1; "users"; "u1"; "blog_posts"];
     OnSnapshot ["artifacts"; appId env1; "users"; "u2"; "blog_posts"]] /\
  snapshotListener switched_to_u2 =
    Some ["artifacts"; appId env1; "users"; "u2"; "blog_posts"].
Proof.
  apply (user_switch_resubscribes env1 listed_BA switched_to_u2 "u1" "u2"
           Fulfilled).
  - apply (after_reachable env1 show_BA listed_BA). vm_compute. reflexivity.
  - reflexivity.
  - reflexivity.
  - reflexivity.
  - reflexivity.
  - discriminate.
  - vm_compute. reflexivity.
Defined.

(** X8: when the application id is one path segment, whatever the
    component has asked of the store, in any state it reaches, lies
    under artifacts / application id / users, in the blog-post collection
    below the segments of some user id: subscriptions and creates on the
    collection, updates and deletes on a document of it. *)
Theorem calls_stay_in_user_collections (env : globals) (w : world) :
  is_segment (appId env) = true ->
  reachable env w -> Forall (scoped env) (trace w).
Proof.
  intros Hseg. induction 1 as [|w w' e Hr IH Hstep]; [constructor|].
  pose proof (reachable_invariant env w Hr) as Hinv.
  destruct (step_adds env e w w' Hinv Hstep) as (pre & -> & _ & Hpre).
  apply Forall_app. split; [exact IH|].
  apply Forall_app. split.
  - eapply Forall_impl; [|exact Hpre]. intros x Hx. apply Hx, Hseg.
  - apply resubscription_scoped; assumption.
Qed.

Lemma calls_stay_witness : Forall (scoped env1) (trace stale_delete).
Proof.
  apply (calls_stay_in_user_collections env1 stale_delete).
  - reflexivity.
  - apply (after_reachable env1 (stale_list ++ [DeleteRefused 0])
             stale_delete).
    vm_compute. reflexivity.
Defined.

(** X9: in the history of every state the component reaches, a
    subscription is opened only while none is open, and a close always
    closes the open one; the subscription open at the end is the live
    listener.  So at no time are two subscriptions open. *)
Theorem one_subscription_at_a_time (env : globals) (w : world) :
  reachable env w ->
  subscriptions (trace w) None = Some (snapshotListener w) /\
  (forall tr1 tr2,
      trace w = tr1 ++ tr2 -> exists cur, subscriptions tr1 None = Some cur).
Proof.
  intros Hr. pose proof (reachable_subscriptions env w Hr) as H.
  split; [exact H|].
  intros tr1 tr2 Heq. rewrite Heq, subscriptions_app in H.
  destruct (subscriptions tr1 None) as [cur|]; [|discriminate].
  exists cur. reflexivity.
Qed.

Lemma one_subscription_witness :
  subscriptions (trace switched_to_u2) None =
    Some (snapshotListener switched_to_u2) /\
  (forall tr1 tr2,
      trace switched_to_u2 = tr1 ++ tr2 ->
      exists cur, subscriptions tr1 None = Some cur).
Proof.
  apply (one_subscription_at_a_time env1 switched_to_u2).
  apply (after_reachable env1
           (show_BA ++ [AuthStateChanged (Some "u2") Fulfilled])
           switched_to_u2).
  vm_compute. reflexivity.
Defined.
(** X5: without a Firebase configuration the mount only logs "Firebase
    config is not provided."; whatever happens afterwards, nothing is ever
    asked of the backend, no user is stored, and [loading] stays true:
    the page shows "Loading posts..." for good. *)
Theorem missing_config_loads_forever (env : globals)
    (toLocaleString : Z -> string) (thrown : option string)
    (es : list event) (w : world) :
  firebaseConfig env = [] ->
  run env (Mount thrown :: es) initial_world = Some w ->
  (exists rest,
      trace w = ConsoleError "Firebase config is not provided." None :: rest) /\
  network_calls (trace w) = [] /\
  userId (st w) = None /\
  blogs (st w) = [] /\
  loading (st w) = true /\
  postsPanel (render toLocaleString (st w)) = LoadingPosts.
Proof.
  intros Hcfg Hrun. apply run_cons in Hrun.
  destruct Hrun as (w1 & Hstep & Hrun).
  apply step_Some in Hstep. destruct Hstep as [_ Hw1].
  assert (H1 : w1 =
               {| st := initial_state;
                  trace :=
                    [ConsoleError "Firebase config is not provided." None];
                  mounted := true; authListener := false;
                  snapshotListener := None |}).
  { rewrite Hw1. unfold handler, initEffect. rewrite Hcfg. reflexivity. }
  assert (Hdead : without_store w1) by (rewrite H1; repeat split).
  destruct (without_store_run env es w1 w Hdead Hrun)
    as ((_ & _ & _ & Hu & _) & Hl & Hb & Hn).
  destruct (run_extends env es w1 w Hrun) as (rest & Htr).
  rewrite H1 in Hl, Hb, Hn, Htr. simpl in Hl, Hb, Hn, Htr.
  split; [exists rest; exact Htr|].
  split; [exact Hn|]. split; [exact Hu|]. split; [exact Hb|].
  split; [exact Hl|]. unfold render. simpl. rewrite Hl. reflexivity.
Qed.

Lemma missing_config_witness :
  (exists rest,
      trace unconfigured_submitted =
      ConsoleError "Firebase config is not provided." None :: rest) /\
  network_calls (trace unconfigured_submitted) = [] /\
  userId (st unconfigured_submitted) = None /\
  blogs (st unconfigured_submitted) = [] /\
  loading (st unconfigured_submitted) = true /\
  postsPanel (render millis_string (st unconfigured_submitted)) = LoadingPosts.
Proof.
  apply (missing_config_loads_forever env0 millis_string None
           (fill_in_hello ++ [Submit Fulfilled])).
  - reflexivity.
  - vm_compute. reflexivity.
Defined.

(** X6: when the initialisation throws, the error is logged and
    [loading] is cleared; whatever happens afterwards, nothing is ever
    asked of the backend, no user and no store handle is stored, and the
    page shows "No posts yet! Create one above.". *)
Theorem failed_init_leaves_empty_page (env : globals)
    (toLocaleString : Z -> string) (error : string)
    (es : list event) (w : world) :
  firebaseConfig env <> [] ->
  run env (Mount (Some error) :: es) initial_world = Some w ->
  (exists rest,
      trace w =
      InitializeApp ::
      ConsoleError "Firebase initialization error:" (Some error) :: rest) /\
  network_calls (trace w) = [] /\
  userId (st w) = None /\ db (st w) = None /\
  loading (st w) = false /\
  postsPanel (render toLocaleString (st w)) = NoPosts.
Proof.
  intros Hcfg Hrun. apply run_cons in Hrun.
  destruct Hrun as (w1 & Hstep & Hrun).
  apply step_Some in Hstep. destruct Hstep as [_ Hw1].
  assert (H1 : w1 =
               {| st :=
                    {| blogs := []; title := ""; description := "";
                       author := ""; editingId := None; loading := false;
                       userId := None; db := None; auth := None |};
                  trace :=
                    [InitializeApp;
                     ConsoleError "Firebase initialization error:"
                       (Some error)];
                  mounted := true; authListener := false;
                  snapshotListener := None |}).
  { rewrite Hw1. unfold handler, initEffect.
    destruct (firebaseConfig env) as [|c cfg]; [congruence|]. reflexivity. }
  assert (Hdead : without_store w1) by (rewrite H1; repeat split).
  destruct (without_store_run env es w1 w Hdead Hrun)
    as ((_ & Hd & _ & Hu & _) & Hl & Hb & Hn).
  destruct (run_extends env es w1 w Hrun) as (rest & Htr).
  rewrite H1 in Hl, Hb, Hn, Htr. simpl in Hl, Hb, Hn, Htr.
  split; [exists rest; exact Htr|].
  split; [exact Hn|]. split; [exact Hu|]. split; [exact Hd|].
  split; [exact Hl|]. unfold render. simpl. rewrite Hl, Hb. reflexivity.
Qed.

Lemma failed_init_witness :
  (exists rest,
      trace init_failed_submitted =
      InitializeApp ::
      ConsoleError "Firebase initialization error:" (Some "invalid options")
      :: rest) /\
  network_calls (trace init_failed_submitted) = [] /\
  userId (st init_failed_submitted) = None /\
  db (st init_failed_submitted) = None /\
  loading (st init_failed_submitted) = false /\
  postsPanel (render millis_string (st init_failed_submitted)) = NoPosts.
Proof.
  apply (failed_init_leaves_empty_page env1 millis_string "invalid options"
           (fill_in_hello ++ [Submit Fulfilled])).
  - discriminate.
  - vm_compute. reflexivity.
Defined.

(** X7: when the authentication state reports no user, exactly one
    sign-in is asked for: with the bootstrap token when the page gives a
    non-empty one, anonymously otherwise.  A rejection is logged and
    clears [loading]; otherwise the state is as before.  In no case is a
    user stored or the subscription touched. *)
Theorem sign_in_when_absent (env : globals) (w w' : world) (r : settled) :
  step env (AuthStateChanged None r) w = Some w' ->
  trace w' =
    trace w ++
    match __initial_auth_token env with
    | None | Some EmptyString => SignInAnonymously
    | Some token => SignInWithCustomToken token
    end ::
    match r with
    | Rejected error => [ConsoleError "Authentication error:" (Some error)]
    | _ => []
    end /\
  userId (st w') = userId (st w) /\
  snapshotListener w' = snapshotListener w /\
  match r with
  | Rejected _ => loading (st w') = false
  | _ => st w' = st w
  end.
Proof.
  intros Hstep. apply step_Some in Hstep. destruct Hstep as [_ ->].
  pose proof (auth_absent_spec env r w) as Hk.
  rewrite rerender_kept by apply Hk.
  destruct Hk as (Hu & _ & _ & _ & _ & Hs).
  split; [|split; [exact Hu | split; [exact Hs|]]].
  - rewrite auth_absent_adds. unfold initialAuthToken.
    destruct (__initial_auth_token env) as [[|c token]|]; reflexivity.
  - unfold handler, authCallback, try_await. destruct r; reflexivity.
Qed.

Lemma sign_in_when_absent_witness :
  trace token_denied =
    trace token_mounted ++
    match __initial_auth_token env_token with
    | None | Some EmptyString => SignInAnonymously
    | Some token => SignInWithCustomToken token
    end ::
    [ConsoleError "Authentication error:" (Some "denied")] /\
  userId (st token_denied) = userId (st token_mounted) /\
  snapshotListener token_denied = snapshotListener token_mounted /\
  loading (st token_denied) = false.
Proof.
  apply (sign_in_when_absent env_token token_mounted token_denied
           (Rejected "denied")).
  vm_compute. reflexivity.
Defined.

(** X11: the list is replaced by snapshots only: no other event, not a
    submit, a delete, or a change of user, changes it.  After another
    user signed in the previous list stays until a snapshot arrives. *)
Theorem list_changes_only_on_snapshot (env : globals) (e : event)
    (w w' : world) :
  (forall docs, e <> Snapshot docs) ->
  step env e w = Some w' ->
  blogs (st w') = blogs (st w).
Proof.
  intros He Hstep. rewrite (step_blogs env e w w' Hstep).
  apply handler_blogs, He.
Qed.

Lemma list_changes_only_witness :
  blogs (st switched_to_u2) = blogs (st listed_BA).
Proof.
  apply (list_changes_only_on_snapshot env1
           (AuthStateChanged (Some "u2") Fulfilled) listed_BA switched_to_u2).
  - discriminate.
  - vm_compute. reflexivity.
Defined.

(** X12: once [loading] is false it stays false, whatever events
    follow. *)
Theorem loading_stays_cleared (env : globals) (es : list event)
    (w w' : world) :
  loading (st w) = false -> run env es w = Some w' ->
  loading (st w') = false.
Proof.
  revert w. induction es as [|e es IH]; simpl; intros w Hl Hrun.
  - injection Hrun as <-. exact Hl.
  - destruct (step env e w) as [w1|] eqn:Hstep; [|discriminate].
    apply (IH w1); [|exact Hrun]. apply (step_loading env e w w1 Hl Hstep).
Qed.

Lemma loading_stays_cleared_witness : loading (st switched_to_u2) = false.
Proof.
  apply (loading_stays_cleared env1
           [Snapshot [docB; docA]; AuthStateChanged (Some "u2") Fulfilled]
           signed_in switched_to_u2).
  - reflexivity.
  - vm_compute. reflexivity.
Defined.

(** X15: when the authentication state reports the user who is already
    stored, only the log line is added: the subscription stays as it is,
    without being closed and opened again, and the list is kept. *)
Theorem same_user_keeps_subscription (env : globals) (w w' : world)
    (uid : string) (r : settled) :
  userId (st w) = Some uid ->
  step env (AuthStateChanged (Some uid) r) w = Some w' ->
  trace w' = trace w ++ [ConsoleLog "Signed in as:" uid] /\
  snapshotListener w' = snapshotListener w /\
  userId (st w') = Some uid /\
  blogs (st w') = blogs (st w) /\
  loading (st w') = false.
Proof.
  intros Hu Hstep. apply step_Some in Hstep. destruct Hstep as [_ ->].
  destruct (auth_user_spec env uid r w)
    as (A1 & A2 & A3 & _ & _ & A6 & A7 & _).
  rewrite rerender_kept by (rewrite ?A1, ?A3; auto).
  rewrite A1, A2, A6, A7. repeat split.
Qed.

Lemma same_user_witness :
  trace same_user_again = trace listed_BA ++ [ConsoleLog "Signed in as:" "u1"] /\
  snapshotListener same_user_again = snapshotListener listed_BA /\
  userId (st same_user_again) = Some "u1" /\
  blogs (st same_user_again) = blogs (st listed_BA) /\
  loading (st same_user_again) = false.
Proof.
  apply (same_user_keeps_subscription env1 listed_BA same_user_again "u1"
           Fulfilled).
  - reflexivity.
  - vm_compute. reflexivity.
Defined.

(** X16: when the first user signs in, with a non-empty id, [loading] is
    cleared and nothing is closed.  When [collection] accepts the path
    built from the id, the subscription on the collection it returns is
    opened; when it throws, the error is logged as "Firestore snapshot
    error:" and there is no subscription.  With an application id and a
    user id of one path segment each the path is accepted, and the
    collection is artifacts / application id / users / user id /
    blog_posts. *)
Theorem first_sign_in_subscribes (env : globals) (w w' : world)
    (uid : string) (r : settled) :
  reachable env w -> userId (st w) = None -> uid <> "" ->
  step env (AuthStateChanged (Some uid) r) w = Some w' ->
  trace w' =
    trace w ++
    [ConsoleLog "Signed in as:" uid;
     match collection ["artifacts"; appId env; "users"; uid; "blog_posts"] with
     | inr ref => OnSnapshot ref
     | inl error => ConsoleError "Firestore snapshot error:" (Some error)
     end] /\
  snapshotListener w' =
    match collection ["artifacts"; appId env; "users"; uid; "blog_posts"] with
    | inr ref => Some ref
    | inl _ => None
    end /\
  userId (st w') = Some uid /\
  loading (st w') = false /\
  (is_segment (appId env) = true -> is_segment uid = true ->
   collection ["artifacts"; appId env; "users"; uid; "blog_posts"] =
   inr ["artifacts"; appId env; "users"; uid; "blog_posts"]).
Proof.
  intros Hr Hu Hne Hstep.
  assert (Hother : userId (st w) <> Some uid) by congruence.
  destruct (sign_in_step env w w' uid r Hr Hother Hne Hstep)
    as (Htr & Hs & Hu' & Hl & _).
  destruct (reachable_invariant env w Hr) as (_ & _ & _ & I3).
  unfold listening in I3. rewrite Hu in I3. simpl in I3.
  rewrite I3 in Htr.
  split; [exact Htr|]. split; [exact Hs|]. split; [exact Hu'|].
  split; [exact Hl|]. apply collection_segments.
Qed.

Lemma first_sign_in_witness :
  trace blank_signed_in =
    trace blank_mounted ++
    [ConsoleLog "Signed in as:" "u1";
     match
       collection ["artifacts"; appId env_blank; "users"; "u1"; "blog_posts"]
     with
     | inr ref => OnSnapshot ref
     | inl error => ConsoleError "Firestore snapshot error:" (Some error)
     end] /\
  snapshotListener blank_signed_in =
    match
      collection ["artifacts"; appId env_blank; "users"; "u1"; "blog_posts"]
    with
    | inr ref => Some ref
    | inl _ => None
    end /\
  userId (st blank_signed_in) = Some "u1" /\
  loading (st blank_signed_in) = false /\
  (is_segment (appId env_blank) = true -> is_segment "u1" = true ->
   collection ["artifacts"; appId env_blank; "users"; "u1"; "blog_posts"] =
   inr ["artifacts"; appId env_blank; "users"; "u1"; "blog_posts"]).
Proof.
  apply (first_sign_in_subscribes env_blank blank_mounted blank_signed_in "u1"
           Fulfilled).
  - apply (after_reachable env_blank [Mount None] blank_mounted).
    vm_compute. reflexivity.
  - reflexivity.
  - discriminate.
  - vm_compute. reflexivity.
Defined.

(** X10: with a user signed in, the application id, the user id and the
    post's id being one path segment each, clicking Edit on a listed post
    (with three non-empty fields) puts the form in edit mode, and
    submitting at once issues one update on that post's document with
    the post's own three fields and a server-timestamp request; when it
    is fulfilled the form is empty and back in create mode. *)
Theorem edit_then_submit_updates_post (env : globals)
    (toLocaleString : Z -> string) (w w1 w2 : world)
    (i : nat) (blog : Blog.t) (uid : string) (r : settled) :
  reachable env w ->
  userId (st w) = Some uid ->
  nth_error (blogs (st w)) i = Some blog ->
  is_segment (appId env) = true -> is_segment uid = true ->
  is_segment (Blog.id blog) = true ->
  Blog.title blog <> "" ->
  Blog.description blog <> "" -> Blog.author blog <> "" ->
  step env (Edit i) w = Some w1 ->
  step env (Submit r) w1 = Some w2 ->
  heading (render toLocaleString (st w1)) = "Edit Blog Post" /\
  (exists tail,
      trace w2 =
        trace w ++
        PreventDefault ::
        UpdateDoc
          ["artifacts"; appId env; "users"; uid; "blog_posts"; Blog.id blog]
          [("title", FString (Blog.title blog));
           ("description", FString (Blog.description blog));
           ("author", FString (Blog.author blog));
           ("timestamp", FServerTimestamp)] :: tail /\
      network_calls tail = []) /\
  (r = Fulfilled ->
   draft (st w2) = empty_draft /\
   heading (render toLocaleString (st w2)) = "Create New Post").
Proof.
  intros Hr Hu Hnth Happ Huid Hid Ht Hd Ha Hedit Hsubmit.
  assert (Hsome : userId (st w) <> None) by congruence.
  destruct (reachable_user env w Hr Hsome) as (Hm & _ & Hdb & _).
  apply (step_form env (Edit i) w w1 I) in Hedit. destruct Hedit as [_ Hw1].
  simpl handler in Hw1. rewrite Hnth in Hw1.
  pose proof (is_segment_truthy _ Hid) as Hid'.
  assert (Hg : rejected_by_guard (st w1) = false).
  { apply guard_passes; rewrite Hw1; simpl.
    - repeat split; assumption.
    - exact Hdb.
    - rewrite Hu. apply is_segment_truthy, Huid. }
  assert (Href : submitRef env (st w1) =
                 inr ["artifacts"; appId env; "users"; uid; "blog_posts";
                      Blog.id blog]).
  { unfold submitRef. rewrite Hw1. simpl. rewrite Hid', Hu. simpl str.
    apply doc_segments; assumption. }
  assert (Hm1 : mounted w1 = true) by (rewrite Hw1; exact Hm).
  destruct (submit_steps env r w1 _ Hm1 Hg Href) as (_ & Hs).
  rewrite Hs in Hsubmit. injection Hsubmit as <-.
  split; [rewrite Hw1; unfold render; simpl; rewrite Hid'; reflexivity|].
  split.
  - destruct (after_write (submit_call (st w1)
                 ["artifacts"; appId env; "users"; uid; "blog_posts";
                  Blog.id blog]) r w1) as (tail & Htr & Hn).
    exists tail. split; [|exact Hn]. rewrite Htr, Hw1.
    unfold submit_call. simpl. rewrite Hid'. reflexivity.
  - intros ->. split; reflexivity.
Qed.

Lemma edit_then_submit_witness :
  heading (render millis_string (st editing_A_unchanged)) = "Edit Blog Post" /\
  (exists tail,
      trace resubmitted_A =
        trace listed_A ++
        PreventDefault ::
        UpdateDoc
          ["artifacts"; appId env1; "users"; "u1"; "blog_posts";
           Blog.id (Blog.of_doc docA)]
          [("title", FString (Blog.title (Blog.of_doc docA)));
           ("description", FString (Blog.description (Blog.of_doc docA)));
           ("author", FString (Blog.author (Blog.of_doc docA)));
           ("timestamp", FServerTimestamp)] :: tail /\
      network_calls tail = []) /\
  (Fulfilled = Fulfilled ->
   draft (st resubmitted_A) = empty_draft /\
   heading (render millis_string (st resubmitted_A)) = "Create New Post").
Proof.
  apply (edit_then_submit_updates_post env1 millis_string listed_A
           editing_A_unchanged resubmitted_A 0 (Blog.of_doc docA) "u1"
           Fulfilled).
  - apply (after_reachable env1 (sign_in_u1 ++ [Snapshot [docA]]) listed_A).
    vm_compute. reflexivity.
  - reflexivity.
  - reflexivity.
  - reflexivity.
  - reflexivity.
  - reflexivity.
  - discriminate.
  - discriminate.
  - discriminate.
  - vm_compute. reflexivity.
  - vm_compute. reflexivity.
Defined.

(** X13: a submit whose call is rejected or never settles leaves the
    state as it was, so submitting again issues the very same call a
    second time. *)
Theorem unfinished_submit_repeats_call (env : globals) (w w1 w2 : world)
    (r1 r2 : settled) :
  r1 <> Fulfilled ->
  filled (st w) -> db (st w) <> None -> truthy_opt (userId (st w)) = true ->
  step env (Submit r1) w = Some w1 ->
  step env (Submit r2) w1 = Some w2 ->
  st w1 = st w /\
  exists call tail1 tail2,
    is_network_call call = true /\
    trace w1 = trace w ++ PreventDefault :: call :: tail1 /\
    trace w2 = trace w1 ++ PreventDefault :: call :: tail2 /\
    network_calls tail1 = [] /\ network_calls tail2 = [].
Proof.
  intros Hr1 Hf Hdb Hu Hs1 Hs2.
  pose proof (guard_passes _ Hf Hdb Hu) as Hg.
  apply (step_form env (Submit r1) w w1 I) in Hs1. destruct Hs1 as [Hen Hw1].
  destruct (submit_enabled env _ w Hen Hg) as (ref & Href).
  simpl handler in Hw1.
  rewrite (handleSubmit_accepted env r1 w ref Hg Href) in Hw1.
  assert (Hst : st w1 = st w).
  { rewrite Hw1. destruct r1; [congruence | reflexivity | reflexivity]. }
  split; [exact Hst|].
  apply (step_form env (Submit r2) w1 w2 I) in Hs2. destruct Hs2 as [_ ->].
  simpl handler.
  rewrite (handleSubmit_accepted env r2 w1 ref)
    by (rewrite Hst; assumption).
  destruct (after_write (submit_call (st w) ref) r1 w) as (tail1 & Ht1 & Hn1).
  destruct (after_write (submit_call (st w1) ref) r2 w1)
    as (tail2 & Ht2 & Hn2).
  exists (submit_call (st w) ref), tail1, tail2.
  split; [apply submit_call_network|].
  split; [rewrite Hw1; exact Ht1|].
  split; [rewrite Ht2, Hst; reflexivity|]. auto.
Qed.

Lemma unfinished_submit_witness :
  st hello_rejected = st hello_filled /\
  exists call tail1 tail2,
    is_network_call call = true /\
    trace hello_rejected = trace hello_filled ++ PreventDefault :: call :: tail1 /\
    trace hello_retried = trace hello_rejected ++ PreventDefault :: call :: tail2 /\
    network_calls tail1 = [] /\ network_calls tail2 = [].
Proof.
  apply (unfinished_submit_repeats_call env1 hello_filled hello_rejected
           hello_retried (Rejected "unavailable") Fulfilled).
  - discriminate.
  - repeat split; discriminate.
  - discriminate.
  - reflexivity.
  - vm_compute. reflexivity.
  - vm_compute. reflexivity.
Defined.

(** X14: after a fulfilled submit the form is empty, so a second submit
    right after it only alerts: it issues no call and changes nothing. *)
Theorem submit_after_success_only_alerts (env : globals) (w w1 w2 : world)
    (r : settled) :
  filled (st w) -> db (st w) <> None -> truthy_opt (userId (st w)) = true ->
  step env (Submit Fulfilled) w = Some w1 ->
  step env (Submit r) w1 = Some w2 ->
  trace w2 = trace w1 ++ [PreventDefault; Alert "Please fill out all fields."] /\
  network_calls (trace w2) = network_calls (trace w1) /\
  st w2 = st w1.
Proof.
  intros Hf Hdb Hu Hs1 Hs2.
  pose proof (guard_passes _ Hf Hdb Hu) as Hg.
  apply (step_form env (Submit Fulfilled) w w1 I) in Hs1.
  destruct Hs1 as [Hen Hw1]. simpl handler in Hw1.
  destruct (submit_enabled env _ w Hen Hg) as (ref & Href).
  rewrite (handleSubmit_accepted env Fulfilled w ref Hg Href) in Hw1.
  assert (Ht : title (st w1) = "") by (rewrite Hw1; reflexivity).
  apply (step_form env (Submit r) w1 w2 I) in Hs2. destruct Hs2 as [_ ->].
  simpl handler.
  rewrite (handleSubmit_rejected env r w1 (guard_rejects _ (or_introl Ht))).
  simpl. rewrite <- app_assoc. split; [reflexivity|].
  split; [|reflexivity].
  rewrite network_calls_app. apply app_nil_r.
Qed.

Lemma submit_after_success_witness :
  trace hello_created_twice =
    trace hello_created ++ [PreventDefault; Alert "Please fill out all fields."] /\
  network_calls (trace hello_created_twice) =
    network_calls (trace hello_created) /\
  st hello_created_twice = st hello_created.
Proof.
  apply (submit_after_success_only_alerts env1 hello_filled hello_created
           hello_created_twice Fulfilled).
  - repeat split; discriminate.
  - discriminate.
  - reflexivity.
  - vm_compute. reflexivity.
  - vm_compute. reflexivity.
Defined.

(** X18: when the store refuses the reference of a submit, what it threw
    is logged as "Error adding/updating document:", no call goes to the
    backend, and the draft, with the rest of the state, is as it was.
    This is what a submit does under an application id that is the empty
    string. *)
Theorem refused_submit_keeps_draft (env : globals) (w w' : world) :
  step env SubmitRefused w = Some w' ->
  (exists error,
      (if truthy_opt (editingId (st w)) then
         doc ["artifacts"; appId env; "users"; str (userId (st w));
              "blog_posts"; str (editingId (st w))]
       else
         collection ["artifacts"; appId env; "users"; str (userId (st w));
                     "blog_posts"]) = inl error /\
      trace w' =
        trace w ++
        [PreventDefault;
         ConsoleError "Error adding/updating document:" (Some error)]) /\
  network_calls (trace w') = network_calls (trace w) /\
  st w' = st w /\
  (forall r, step env (Submit r) w = None).
Proof.
  intros Hstep.
  apply (step_form env SubmitRefused w w' I) in Hstep.
  destruct Hstep as [Hen ->].
  destruct (submit_refused env w Hen) as (Hg & error & Href).
  simpl handler. rewrite (handleSubmit_refused env _ w error Hg Href).
  split; [|split; [|split; [reflexivity|]]].
  - exists error. split; [exact Href|].
    simpl. rewrite <- app_assoc. reflexivity.
  - simpl. rewrite <- app_assoc, network_calls_app. apply app_nil_r.
  - intros r. unfold step. simpl enabled. simpl in Hen.
    apply andb_true_iff in Hen. destruct Hen as [_ ->].
    rewrite andb_false_r. reflexivity.
Qed.

Lemma refused_submit_witness :
  (exists error,
      (if truthy_opt (editingId (st blank_filled)) then
         doc ["artifacts"; appId env_blank; "users";
              str (userId (st blank_filled)); "blog_posts";
              str (editingId (st blank_filled))]
       else
         collection ["artifacts"; appId env_blank; "users";
                     str (userId (st blank_filled)); "blog_posts"]) =
      inl error /\
      trace blank_submitted =
        trace blank_filled ++
        [PreventDefault;
         ConsoleError "Error adding/updating document:" (Some error)]) /\
  network_calls (trace blank_submitted) = network_calls (trace blank_filled) /\
  st blank_submitted = st blank_filled /\
  (forall r, step env_blank (Submit r) blank_filled = None).
Proof.
  apply (refused_submit_keeps_draft env_blank blank_filled blank_submitted).
  vm_compute. reflexivity.
Defined.

(** X19: when the store refuses the reference of a delete, what it threw
    is logged as "Error deleting document:", no call goes to the backend
    and the state is as it was.  This is what deleting from a list that
    is still shown does after a user id with a slash was stored. *)
Theorem refused_delete_only_logs (env : globals) (w w' : world) (i : nat) :
  step env (DeleteRefused i) w = Some w' ->
  (exists blog error,
      nth_error (blogs (st w)) i = Some blog /\
      doc ["artifacts"; appId env; "users"; str (userId (st w));
           "blog_posts"; Blog.id blog] = inl error /\
      trace w' =
        trace w ++ [ConsoleError "Error deleting document:" (Some error)]) /\
  st w' = st w /\
  (forall r, step env (Delete i r) w = None).
Proof.
  intros Hstep.
  apply (step_form env (DeleteRefused i) w w' I) in Hstep.
  destruct Hstep as [Hen ->]. simpl in Hen. simpl handler.
  destruct (nth_error (blogs (st w)) i) as [blog|] eqn:Hnth;
    [|rewrite andb_false_r in Hen; discriminate].
  apply andb_true_iff in Hen. destruct Hen as [_ Ht].
  pose proof Ht as Ht'. unfold deleteThrows in Ht'.
  apply andb_true_iff in Ht'. destruct Ht' as [Hg Hthrow].
  destruct (throws_true _ Hthrow) as (error & Href).
  rewrite (handleDelete_refused env _ _ w error Hg Href).
  split; [|split; [reflexivity|]].
  - exists blog, error. split; [reflexivity|]. split; [exact Href|].
    reflexivity.
  - intros r. unfold step. simpl enabled. rewrite Hnth, Ht.
    rewrite andb_false_r. reflexivity.
Qed.

Lemma refused_delete_witness :
  (exists blog error,
      nth_error (blogs (st stale_listed)) 0 = Some blog /\
      doc ["artifacts"; appId env1; "users"; str (userId (st stale_listed));
           "blog_posts"; Blog.id blog] = inl error /\
      trace stale_delete =
        trace stale_listed ++
        [ConsoleError "Error deleting document:" (Some error)]) /\
  st stale_delete = st stale_listed /\
  (forall r, step env1 (Delete 0 r) stale_listed = None).
Proof.
  apply (refused_delete_only_logs env1 stale_listed stale_delete 0).
  vm_compute. reflexivity.
Defined.

